(** * Verification of the stock-forecast genetic algorithm

    Shallow embedding of [genetic_algorithm.py] (Python 2) and proofs about
    its fitness evaluation, variation, selection and evolution loop.

    Numbers.  The dataset comes from [pandas.DataFrame.values.tolist()], a
    homogeneous array of binary64 values, and genes are real valued, so
    numeric data is modelled with Rocq's primitive binary64 floats.  Counters,
    cut points, sizes and fitness are Python integers, modelled in [Z]/[nat].

    Objects.  A population is a Python list of references to [Chromosome]
    objects that several functions mutate in place.  The embedding keeps an
    explicit store of chromosomes, and populations are lists of store
    locations, so that identity, aliasing and in-place updates are visible.

    Effects.  The program reads the global [random] module, mutates objects,
    writes a statistics file and prints.  All of that is one state record
    threaded through a state-and-exception monad. *)

From Stdlib Require Import ZArith Lia Floats.
From stdpp Require Import base option list sorting.

(** ** Python values and exceptions *)

Inductive exn : Set :=
  | IndexError          (* sequence subscript out of range *)
  | ZeroDivisionError   (* float division by zero *)
  | OverflowError       (* integer too large to convert to float *)
  | ValueError          (* empty range for randint, list.remove(x) without x *)
  | InvalidReference.   (* a location outside the store: impossible in Python,
                           where every reference is live *)

Inductive result (A : Type) : Type :=
  | Ok (a : A)
  | Raise (e : exn).
Arguments Ok {A} a.
Arguments Raise {A} e.

(** [float(z)] for a Python integer: round to nearest even. *)
Definition float_of_Z (z : Z) : float :=
  SF2Prim (binary_normalize prec emax z 0 false).

(** The least magnitude of an integer that rounds above the largest finite
    binary64 number: [float(z)] raises from there on. *)
Definition FLOAT_OVERFLOW : Z := 2 ^ 1024 - 2 ^ 970.

(** [float(z)], explicit or implied by arithmetic with a float. *)
Definition py_float (z : Z) : result float :=
  if (Z.abs z <? FLOAT_OVERFLOW)%Z then Ok (float_of_Z z)
  else Raise OverflowError.

(** [a / b] on Python floats raises on a zero divisor. *)
Definition py_truediv (a b : float) : result float :=
  if (b =? 0)%float then Raise ZeroDivisionError else Ok (a / b)%float.

(** [a / float(n)] for a Python integer [n].  [float(n)] is 0.0 exactly when
    [n] is 0, and Python then raises. *)
Definition py_truediv_int (a : float) (n : Z) : result float :=
  if (n =? 0)%Z then Raise ZeroDivisionError
  else Ok (a / float_of_Z n)%float.

(** [range(n)]: empty when [n <= 0]. *)
Definition range (n : Z) : list nat := seq 0 (Z.to_nat n).

(** ** Chromosome *)

Definition loc := nat.

(** Modelled from the spec: the class [Chromosome] of [chromosome.py], which
    this module imports.  An individual has an ordered sequence of 7
    real-valued genes and an integer fitness; a freshly constructed
    individual holds the default (zero) genes and a zero fitness, and owns
    its weight list (it is never shared with another individual). *)
Record Chromosome : Type := mkChromosome {
  weights : list float;
  fitness : Z
}.

Definition GENES : nat := 7.

Definition Chromosome_init : Chromosome :=
  {| weights := replicate GENES 0%float; fitness := 0 |}.

(** ** The [random] and [math] modules *)

(** The global pseudo-random source, as state passing.  Any realization of
    the draws is an instance: the laws only bound what a draw returns. *)
Class RandomSource : Type := {
  rng : Type;
  (* random.randint(a, b), called with a <= b *)
  randint : Z → Z → rng → Z * rng;
  (* random.uniform(a, b) *)
  uniform : float → float → rng → float * rng;
  (* random.shuffle(l), returning the reordered list *)
  shuffle : list loc → rng → list loc * rng;
  randint_range : ∀ a b g, (a ≤ b)%Z → (a ≤ (randint a b g).1 ≤ b)%Z;
  shuffle_perm : ∀ l g, (shuffle l g).1 ≡ₚ l
}.

(** [math.exp].  Its results are never negative, so [1 + math.exp(x)] is
    never zero; the arguments the program passes are never positive, so it
    does not overflow. *)
Class MathModule : Type := {
  exp : float → float;
  exp_denominator : ∀ x, (1 + exp x =? 0)%float = false
}.

(** ** Program state and monad *)

Section Program.
Context `{RS : RandomSource} `{MM : MathModule}.

Record state : Type := mkState {
  heap : list Chromosome;      (* the store of live Chromosome objects *)
  gen : rng;                   (* state of the random module *)
  stat_txt : list float;       (* numbers written to stat.txt, oldest first *)
  stdout : list Z              (* iteration numbers printed, oldest first *)
}.

Definition M (A : Type) : Type := state → result (A * state).

#[local] Instance M_ret : MRet M := λ A a s, Ok (a, s).
#[local] Instance M_bind : MBind M := λ A B f m s,
  match m s with
  | Ok (a, s') => f a s'
  | Raise e => Raise e
  end.

Definition raise {A} (e : exn) : M A := λ _, Raise e.

Definition lift {A} (r : result A) : M A := λ s,
  match r with Ok a => Ok (a, s) | Raise e => Raise e end.

(** [l[i]] for a non-negative subscript. *)
Definition index {A} (l : list A) (i : nat) : M A :=
  match l !! i with
  | Some x => mret x
  | None => raise IndexError
  end.

(** [for x in l: s = body(x, s)] with the loop-carried variables [s]. *)
Fixpoint for_in {A V} (l : list A) (body : A → V → M V) (s : V) : M V :=
  match l with
  | [] => mret s
  | x :: l' => s' ← body x s; for_in l' body s'
  end.

(** *** Store operations *)

Definition deref (c : loc) : M Chromosome := λ s,
  match heap s !! c with
  | Some o => Ok (o, s)
  | None => Raise InvalidReference
  end.

Definition store (c : loc) (o : Chromosome) : M unit := λ s,
  Ok (tt, mkState (<[c := o]> (heap s)) (gen s) (stat_txt s) (stdout s)).

(** [Chromosome()] *)
Definition new_Chromosome : M loc := λ s,
  Ok (length (heap s),
      mkState (heap s ++ [Chromosome_init]) (gen s) (stat_txt s) (stdout s)).

(** [chromosome.set_fitness(f)] *)
Definition set_fitness (c : loc) (f : Z) : M unit :=
  o ← deref c; store c {| weights := weights o; fitness := f |}.

(** [c.weights[i]] *)
Definition get_weight (c : loc) (i : nat) : M float :=
  o ← deref c; index (weights o) i.

(** [c.weights[i] = v] *)
Definition set_weight (c : loc) (i : nat) (v : float) : M unit :=
  o ← deref c;
  if decide (i < length (weights o))
  then store c {| weights := <[i := v]> (weights o); fitness := fitness o |}
  else raise IndexError.

(** *** Random draws *)

Definition random_randint (a b : Z) : M Z := λ s,
  if decide (a ≤ b)%Z
  then let '(z, g) := randint a b (gen s) in
       Ok (z, mkState (heap s) g (stat_txt s) (stdout s))
  else Raise ValueError.

Definition random_uniform (a b : float) : M float := λ s,
  let '(x, g) := uniform a b (gen s) in
  Ok (x, mkState (heap s) g (stat_txt s) (stdout s)).

Definition random_shuffle (l : list loc) : M (list loc) := λ s,
  let '(l', g) := shuffle l (gen s) in
  Ok (l', mkState (heap s) g (stat_txt s) (stdout s)).

(** ** Fitness evaluation *)

(** [evaluate_sigmoid(weights, values)] *)
Definition evaluate_sigmoid (weights values : list float) : result Z :=
  let weighted_sum :=
    fold_left (λ acc wv, acc + wv.1 * wv.2)%float (zip weights values) 0%float in
  let gamma := (weighted_sum - 125000)%float in
  let res :=
    if (gamma <? 0)%float
    then match py_truediv 1 (1 + exp gamma) with
         | Ok q => Ok (1 - q)%float
         | Raise e => Raise e
         end
    else py_truediv 1 (1 + exp (-1 * gamma)) in
  match res with
  | Ok res => if (0.5 <=? res)%float then Ok 1%Z else Ok (-1)%Z
  | Raise e => Raise e
  end.

(** The loop of [evaluate_fitness], with its two counters. *)
Definition count_predictions (weights : list float) (data : list (list float))
  : M (Z * Z) :=
  for_in (range (Z.of_nat (length data) - 1)) (λ i '(success, fail),
    row ← index data i;
    res ← lift (evaluate_sigmoid weights row);
    next ← index data (i + 1);
    next_close ← index next 3;
    close ← index row 3;
    let prc_diff := (next_close - close)%float in
    if (res =? 1)%Z && (0 <=? prc_diff)%float
       || (res =? -1)%Z && (prc_diff <? 0)%float
    then mret (success + 1, fail)%Z
    else mret (success, fail + 1)%Z) (0, 0)%Z.

(** [evaluate_fitness(chromosome, path)]; [data] is the content of the file
    at [path], as [read_csv(...).values.tolist()] returns it. *)
Definition evaluate_fitness (chromosome : loc) (data : list (list float))
  : M unit :=
  o ← deref chromosome;
  let weights := weights o in
  '(success, fail) ← count_predictions weights data;
  set_fitness chromosome success.

(** [evaluate_population(population, data_file)] *)
Definition evaluate_population (population : list loc)
    (data : list (list float)) : M unit :=
  for_in population (λ chromosome _, evaluate_fitness chromosome data) tt.

(** ** Population creation *)

(** Modelled from the spec: [Chromosome.set_random_weights] of
    [chromosome.py], which draws each of the 7 genes independently and
    uniformly from [0, 500000). *)
Definition set_random_weights (c : loc) : M unit :=
  for_in (range (Z.of_nat GENES)) (λ i _,
    w ← random_uniform 0 500000;
    set_weight c i w) tt.

(** [create_population(size)] *)
Definition create_population (size : Z) : M (list loc) :=
  for_in (range size) (λ _ population_list,
    c ← new_Chromosome;
    _ ← set_random_weights c;
    mret (population_list ++ [c])) [].

(** ** Variation *)

(** One child's gene [i] in the loop of [crossover]: [first] is the parent of
    the outer segments, [second] the parent of the middle segment. *)
Definition crossover_gene (p : float) (cut1 cut2 : Z) (child first second : loc)
    (i : nat) (mut : float) : M unit :=
  if (mut <=? p)%float then
    (* Mutation takes place *)
    w ← get_weight child i;
    r ← random_randint 0 10;
    set_weight child i (w + float_of_Z r)%float
  else if (Z.of_nat i <? cut1)%Z then
    w ← get_weight first i; set_weight child i w
  else if (cut1 <=? Z.of_nat i)%Z && (Z.of_nat i <? cut2)%Z then
    w ← get_weight second i; set_weight child i w
  else
    w ← get_weight first i; set_weight child i w.

(** [crossover(chromosome1, chromosome2)] *)
Definition crossover (chromosome1 chromosome2 : loc) : M (list loc) :=
  (* Mutation probability *)
  let p := 0.5%float in
  cut1 ← random_randint 0 3;
  cut2 ← random_randint 4 6;
  child1 ← new_Chromosome;
  child2 ← new_Chromosome;
  o1 ← deref chromosome1;
  _ ← for_in (range (Z.of_nat (length (weights o1)))) (λ i _,
    mut1 ← random_uniform 0 1;
    mut2 ← random_uniform 0 1;
    _ ← crossover_gene p cut1 cut2 child1 chromosome1 chromosome2 i mut1;
    crossover_gene p cut1 cut2 child2 chromosome2 chromosome1 i mut2) tt;
  mret [child1; child2].

(** [add_children(population)]; the list is extended in place, the result is
    its new content. *)
Definition add_children (population : list loc) : M (list loc) :=
  population ← random_shuffle population;
  let mid := Z.to_nat (Z.of_nat (length population) / 2) in
  let half1 := take mid population in
  let half2 := drop mid population in
  for_in (range (Z.of_nat mid)) (λ i population,
    c1 ← index half1 i;
    c2 ← index half2 i;
    children ← crossover c1 c2;
    mret (population ++ children)) population.

(** ** Selection *)

(** [l.remove(x)]: drops the first item equal to [x].  Chromosomes compare by
    identity. *)
Fixpoint list_remove (x : loc) (l : list loc) : option (list loc) :=
  match l with
  | [] => None
  | y :: l' => if decide (y = x) then Some l'
               else (y ::.) <$> list_remove x l'
  end.

Definition remove (x : loc) (l : list loc) : M (list loc) :=
  match list_remove x l with
  | Some l' => mret l'
  | None => raise ValueError
  end.

(** The linear scan for the best chromosome of the pool. *)
Definition scan_best (population : list loc) (best_chromosome : loc) : M loc :=
  for_in population (λ x best_chromosome,
    ox ← deref x;
    ob ← deref best_chromosome;
    if (fitness ox >? fitness ob)%Z then mret x else mret best_chromosome)
  best_chromosome.

(** [select_fittest(population)]: returns the survivors and, second, what is
    left of the list [population], which is emptied in place. *)
Definition select_fittest (population : list loc) : M (list loc * list loc) :=
  for_in (range (Z.of_nat (length population) / 2)) (λ c '(fittest, population),
    (* Random selection probability *)
    let p := 0x1.999999999999ap-4%float in   (* 0.1 *)
    u ← random_uniform 0 1;
    if (u <=? p)%float then
      r ← random_randint 0 (Z.of_nat (length population) - 1);
      rnd_chromosome ← index population (Z.to_nat r);
      population' ← remove rnd_chromosome population;
      mret (fittest ++ [rnd_chromosome], population')
    else
      best_chromosome ← index population 0;
      best_chromosome ← scan_best population best_chromosome;
      population' ← remove best_chromosome population;
      mret (fittest ++ [best_chromosome], population')) ([], population).

(** ** Statistics and the evolution loop *)

(** [avg_fitness(population)].  In [fit_sum/float(total)] the call
    [float(total)] comes first, then the division converts the integer
    [fit_sum]; either conversion raises [OverflowError] out of range, and
    the division raises on the zero divisor. *)
Definition avg_fitness (population : list loc) : M float :=
  let total := Z.of_nat (length population) in
  fit_sum ← for_in population (λ chromosome fit_sum,
    o ← deref chromosome;
    mret (fit_sum + fitness o)%Z) 0%Z;
  _ ← lift (py_float total);
  dividend ← lift (py_float fit_sum);
  lift (py_truediv_int dividend total).

(** [f.write(str(x) + "\n")] *)
Definition write_stat (x : float) : M unit := λ s,
  Ok (tt, mkState (heap s) (gen s) (stat_txt s ++ [x]) (stdout s)).

(** [open("stat.txt", 'w')] truncates the file. *)
Definition open_stat : M unit := λ s,
  Ok (tt, mkState (heap s) (gen s) [] (stdout s)).

(** [print "Finished iteration " + str(n)] *)
Definition print_finished (n : Z) : M unit := λ s,
  Ok (tt, mkState (heap s) (gen s) (stat_txt s) (stdout s ++ [n])).

Definition record_stats (statistics : bool) (population : list loc) : M unit :=
  if statistics then a ← avg_fitness population; write_stat a else mret tt.

(** [optimize(initial_population, iterations, data_file, statistics)];
    closing [stat.txt] at the end leaves its content as it is. *)
Definition optimize (initial_population iterations : Z)
    (data : list (list float)) (statistics : bool) : M (list loc) :=
  _ ← (if statistics then open_stat else mret tt);
  population ← create_population initial_population;
  _ ← record_stats statistics population;
  for_in (range iterations) (λ i population,
    population ← add_children population;
    _ ← evaluate_population population data;
    '(population, _) ← select_fittest population;
    _ ← record_stats statistics population;
    _ ← print_finished (Z.of_nat i + 1);
    mret population) population.

(** ** Best individual *)

(** Python's [list.sort(key=..., reverse=True)] on decorated items: a stable
    sort by decreasing key, items with equal keys keeping their order. *)
Fixpoint insert_desc (x : Z * loc) (l : list (Z * loc)) : list (Z * loc) :=
  match l with
  | [] => [x]
  | y :: l' => if (y.1 <=? x.1)%Z then x :: l else y :: insert_desc x l'
  end.

Definition sort_desc (l : list (Z * loc)) : list (Z * loc) :=
  foldr insert_desc [] l.

(** [get_optimal(population)]: returns the optimal individual and, second,
    the list [population] as the call leaves it (sorted in place). *)
Definition get_optimal (population : list loc) : M (loc * list loc) :=
  keyed ← for_in population (λ x keyed,
    o ← deref x;
    mret (keyed ++ [(fitness o, x)])) [];
  let population := (sort_desc keyed).*2 in
  best ← index population 0;
  mret (best, population).

End Program.

Arguments state {RS}.
Arguments mkState {RS}.
Arguments M {RS}.

(** ** A concrete random source and exponential, for running the program *)

(** A tape of raw draws; an exhausted tape keeps giving 0.  [randint a b]
    reduces the raw draw into [a..b], [uniform a b] maps it to one of the
    eleven points [a + (b - a) * k / 10], [shuffle] reverses the list on an
    odd draw. *)
Definition tape_next (g : list Z) : Z * list Z :=
  match g with
  | [] => (0%Z, [])
  | x :: g' => (x, g')
  end.

Definition tape_randint (a b : Z) (g : list Z) : Z * list Z :=
  let '(x, g') := tape_next g in ((a + x `mod` (b - a + 1))%Z, g').

Definition tape_uniform (a b : float) (g : list Z) : float * list Z :=
  let '(x, g') := tape_next g in
  ((a + (b - a) * (float_of_Z (x `mod` 11) / 10))%float, g').

Definition tape_shuffle (l : list loc) (g : list Z) : list loc * list Z :=
  let '(x, g') := tape_next g in
  (if Z.odd x then reverse l else l, g').

Lemma tape_randint_range a b g :
  (a ≤ b)%Z → (a ≤ (tape_randint a b g).1 ≤ b)%Z.
Proof.
  intros Hab. unfold tape_randint. destruct (tape_next g) as [x g']. simpl.
  pose proof (Z.mod_pos_bound x (b - a + 1)). lia.
Qed.

Lemma tape_shuffle_perm l g : (tape_shuffle l g).1 ≡ₚ l.
Proof.
  unfold tape_shuffle. destruct (tape_next g) as [x g']. simpl.
  destruct (Z.odd x); [apply reverse_Permutation | done].
Qed.

Definition TapeRandom : RandomSource := {|
  rng := list Z;
  randint := tape_randint;
  uniform := tape_uniform;
  shuffle := tape_shuffle;
  randint_range := tape_randint_range;
  shuffle_perm := tape_shuffle_perm
|}.

(** A three-valued stand-in for [math.exp]: below 1 on negative arguments,
    1 at zero, above 1 on positive ones. *)
Definition step_exp (x : float) : float :=
  if (x <? 0)%float then 0.5%float
  else if (x =? 0)%float then 1%float else 2%float.

Lemma step_exp_denominator x : (1 + step_exp x =? 0)%float = false.
Proof.
  unfold step_exp. destruct (x <? 0)%float; [reflexivity |].
  destruct (x =? 0)%float; reflexivity.
Qed.

Definition StepMath : MathModule := {|
  exp := step_exp;
  exp_denominator := step_exp_denominator
|}.

(** ** Concrete inputs *)

(** Three evaluated chromosomes, of fitness 3, 7 and 5. *)
Definition example_heap : list Chromosome :=
  [ {| weights := [1; 2; 3; 4; 5; 6; 7]%float; fitness := 3 |};
    {| weights := [70000; 6; 5; 4; 3; 2; 1]%float; fitness := 7 |};
    {| weights := replicate GENES 1000%float; fitness := 5 |} ].

Definition example_state : state (RS := TapeRandom) :=
  mkState (RS := TapeRandom) example_heap
    [3; 1; 4; 1; 5; 9; 2; 6; 5; 3; 5; 8; 9; 7; 9; 3; 2; 3; 8; 4]%Z [] [].

(** Four days of prices: the close (column 3) rises, rises and falls. *)
Definition example_data : list (list float) :=
  [ [1; 1; 1; 10; 1; 1; 1]; [2; 1; 1; 11; 1; 1; 1];
    [2; 1; 1; 12; 1; 1; 1]; [1; 1; 1; 11; 1; 1; 1] ]%float.

Definition parent0 : Chromosome :=
  {| weights := [1; 2; 3; 4; 5; 6; 7]%float; fitness := 3 |}.
Definition parent1 : Chromosome :=
  {| weights := [70000; 6; 5; 4; 3; 2; 1]%float; fitness := 7 |}.

(** * Specification

    The notions the theorems are stated with: well-formed inputs, what a
    row predicted right is, the realization of the random draws of a
    crossover, and the sums and maxima the statistics and the final query
    compute. *)

Section Specification.
Context `{RS : RandomSource} `{MM : MathModule}.

#[local] Existing Instance M_ret.
#[local] Existing Instance M_bind.

(** Rows of the dataset have the 7 feature columns. *)
Definition well_formed_data (data : list (list float)) : bool :=
  forallb (λ row, bool_decide (length row = GENES)) data.

(** The direction the closing price (column 3) takes from [row] to [next]:
    1 when it does not fall, -1 when it falls; none when the difference does
    not compare with zero. *)
Definition price_direction (row next : list float) : option Z :=
  match next !! 3, row !! 3 with
  | Some next_close, Some close =>
      if (0 <=? next_close - close)%float then Some 1%Z
      else if (next_close - close <? 0)%float then Some (-1)%Z
      else None
  | _, _ => None
  end.

(** Row [i] is predicted right: the classifier's direction is the direction
    of the price from row [i] to row [i + 1]. *)
Definition predicted_right (weights : list float) (data : list (list float))
    (i : nat) : bool :=
  match data !! i, data !! (i + 1) with
  | Some row, Some next =>
      match evaluate_sigmoid weights row, price_direction row next with
      | Ok res, Some d => bool_decide (res = d)
      | _, _ => false
      end
  | _, _ => false
  end.

(** The number of rows among the first [k] that are predicted right. *)
Fixpoint matching_rows (weights : list float) (data : list (list float))
    (k : nat) : Z :=
  match k with
  | O => 0%Z
  | S k' => (matching_rows weights data k' +
             if predicted_right weights data k' then 1 else 0)%Z
  end.

(** The realization of the random draws of one call of [crossover], read off
    the state [g] of the random source at the call: the two cut points, then
    for each gene the two mutation rolls followed by the increments of the
    mutations that take place. *)
Definition drawn_cut1 (g : rng) : Z := (randint 0 3 g).1.
Definition drawn_cut2 (g : rng) : Z := (randint 4 6 (randint 0 3 g).2).1.
Definition after_cuts (g : rng) : rng := (randint 4 6 (randint 0 3 g).2).2.

Record gene_draws : Type := {
  mut1 : float;      (* mutation roll of child 1 *)
  mut2 : float;      (* mutation roll of child 2 *)
  inc1 : Z;          (* increment of child 1, drawn only if it mutates *)
  inc2 : Z;          (* increment of child 2, drawn only if it mutates *)
  gen_next : rng     (* the random source after the gene *)
}.

Definition draw_gene (g : rng) : gene_draws :=
  let m1 := uniform 0 1 g in
  let m2 := uniform 0 1 m1.2 in
  let r1 := if (m1.1 <=? 0.5)%float then randint 0 10 m2.2 else (0%Z, m2.2) in
  let r2 := if (m2.1 <=? 0.5)%float then randint 0 10 r1.2 else (0%Z, r1.2) in
  {| mut1 := m1.1; mut2 := m2.1; inc1 := r1.1; inc2 := r2.1; gen_next := r2.2 |}.

(** The random source when the loop reaches gene [i], and the draws there. *)
Definition gene_rng (g : rng) (i : nat) : rng :=
  Nat.iter i (λ g, gen_next (draw_gene g)) (after_cuts g).

Definition gene_draw (g : rng) (i : nat) : gene_draws :=
  draw_gene (gene_rng g i).

(** What the loop body stores in gene [i] of a child whose gene is [w0]. *)
Definition new_gene (cut1 cut2 : Z) (first second : list float) (i : nat)
    (w0 mut : float) (inc : Z) : option float :=
  if (mut <=? 0.5)%float then Some (w0 + float_of_Z inc)%float
  else if (Z.of_nat i <? cut1)%Z then first !! i
  else if (cut1 <=? Z.of_nat i)%Z && (Z.of_nat i <? cut2)%Z then second !! i
  else first !! i.

(** The loop invariant of [crossover] after [k] genes. *)
Definition crossover_inv (s : state) (o1 o2 : Chromosome) (k : nat)
    (st : state) : Prop :=
  let cut1 := drawn_cut1 (gen s) in
  let cut2 := drawn_cut2 (gen s) in
  ∃ oA oB,
    st = mkState (heap s ++ [oA; oB]) (gene_rng (gen s) k)
           (stat_txt s) (stdout s) ∧
    fitness oA = 0%Z ∧ fitness oB = 0%Z ∧
    length (weights oA) = GENES ∧ length (weights oB) = GENES ∧
    (∀ i, i < k →
       weights oA !! i
         = new_gene cut1 cut2 (weights o1) (weights o2) i 0
             (mut1 (gene_draw (gen s) i)) (inc1 (gene_draw (gen s) i)) ∧
       weights oB !! i
         = new_gene cut1 cut2 (weights o2) (weights o1) i 0
             (mut2 (gene_draw (gen s) i)) (inc2 (gene_draw (gen s) i))) ∧
    (∀ i, k ≤ i → i < GENES →
       weights oA !! i = Some 0%float ∧ weights oB !! i = Some 0%float).

(** A population the program can work on: every member is a live chromosome
    with the 7 genes. *)
Definition valid_chromosome (h : list Chromosome) (c : loc) : bool :=
  match h !! c with
  | Some o => bool_decide (length (weights o) = GENES)
  | None => false
  end.

Definition valid_population (h : list Chromosome) (population : list loc)
  : bool :=
  forallb (valid_chromosome h) population.

(** The state after a call that only allocated chromosomes [kids]. *)
Definition allocated (s : state) (kids : list Chromosome) (st : state) : Prop :=
  heap st = heap s ++ kids ∧ stat_txt st = stat_txt s ∧ stdout st = stdout s ∧
  Forall (λ o, length (weights o) = GENES) kids.

(** The variation step in the words of its description: run [crossover] on
    each pair, in order, and append both children to the population. *)
Definition breed (pairs : list (loc * loc)) (population : list loc)
  : M (list loc) :=
  for_in pairs (λ pair population,
    children ← crossover pair.1 pair.2;
    mret (population ++ children)) population.

(** Every member of the population is a live chromosome. *)
Definition live_population (h : list Chromosome) (population : list loc)
  : bool :=
  forallb (λ c, bool_decide (c < length h)) population.

(** The state differs from [s] in the random source at most. *)
Definition same_store (s st : state) : Prop :=
  heap st = heap s ∧ stat_txt st = stat_txt s ∧ stdout st = stdout s.

(** The fitness of the chromosome at [c], and the sum over a population. *)
Definition fitness_of (h : list Chromosome) (c : loc) : Z :=
  match h !! c with
  | Some o => fitness o
  | None => 0
  end.

Fixpoint total_fitness (h : list Chromosome) (population : list loc) : Z :=
  match population with
  | [] => 0
  | c :: population' => fitness_of h c + total_fitness h population'
  end.

(** The first item of the largest key, scanning from the left. *)
Fixpoint first_max (l : list (Z * loc)) : option (Z * loc) :=
  match l with
  | [] => None
  | a :: l' =>
      match first_max l' with
      | None => Some a
      | Some y => if (y.1 <=? a.1)%Z then Some a else Some y
      end
  end.

(** The keys the sort attaches to the items. *)
Definition decorate (h : list Chromosome) (population : list loc)
  : list (Z * loc) :=
  (λ c, (fitness_of h c, c)) <$> population.

(** Every row has a closing price, column 3. *)
Definition has_close (data : list (list float)) : bool :=
  forallb (λ row, bool_decide (4 ≤ length row)) data.

(** The score of a weight vector on a dataset: the rows predicted right
    among all but the last, and a chromosome with its score as fitness. *)
Definition score (weights : list float) (data : list (list float)) : Z :=
  matching_rows weights data (Z.to_nat (Z.of_nat (length data) - 1)).

Definition evaluated (data : list (list float)) (o : Chromosome) : Chromosome :=
  {| weights := weights o; fitness := score (weights o) data |}.

(** The linear scan of [select_fittest] as a fold: the candidate changes on
    a strictly greater fitness only. *)
Definition scan_loc (h : list Chromosome) (best : loc) (l : list loc) : loc :=
  fold_left (λ b x, if (fitness_of h x >? fitness_of h b)%Z then x else b)
    l best.

(** The random source after [k] iterations of [select_fittest] none of which
    picked at random, and the condition that the first [n] rolls are all
    above the random selection probability 0.1. *)
Definition rolls_rng (g : rng) (k : nat) : rng :=
  Nat.iter k (λ g, (uniform 0 1 g).2) g.

Definition no_random_pick (g : rng) (n : nat) : Prop :=
  ∀ k, k < n →
    ((uniform 0 1 (rolls_rng g k)).1 <=? 0x1.999999999999ap-4)%float = false.

(** The size of the population after [generations] generations that start
    from [N] individuals: an unpaired individual is lost in the first one. *)
Definition final_size (N generations : nat) : nat :=
  match generations with
  | O => N
  | S _ => 2 * (N / 2)
  end.

(** The chromosome at [c] carries its score on [data] as fitness. *)
Definition up_to_date (h : list Chromosome) (data : list (list float))
    (c : loc) : Prop :=
  ∃ o, h !! c = Some o ∧ fitness o = score (weights o) data.

(** What [optimize] guarantees of its result, started from [s] with [N]
    individuals for [k] generations: the store holds the [N] initial
    chromosomes and the [2 * (N / 2)] children of each generation. *)
Definition optimized (s : state) (N k : nat) (data : list (list float))
    (statistics : bool) (population : list loc) (st : state) : Prop :=
  length population = final_size N k ∧
  valid_population (heap st) population = true ∧
  NoDup population ∧
  (∀ c, c ∈ population → length (heap s) ≤ c) ∧
  length (heap st) = length (heap s) + N + k * (2 * (N / 2)) ∧
  (∀ (c : loc) o, heap s !! c = Some o → heap st !! c = Some o) ∧
  (0 < k → ∀ c, c ∈ population → up_to_date (heap st) data c) ∧
  stdout st = stdout s ++ (Z.of_nat <$> seq 1 k) ∧
  (if statistics then length (stat_txt st) = S k
   else stat_txt st = stat_txt s).

End Specification.

(** * Verification *)

Section Verification.
Context `{RS : RandomSource} `{MM : MathModule}.

#[local] Existing Instance M_ret.
#[local] Existing Instance M_bind.

(** ** Weakest preconditions for the monad

    [wp m s Q]: run from [s], [m] returns normally, with a value and a final
    state that satisfy [Q]. *)
Definition wp {A} (m : M A) (s : state) (Q : A → state → Prop) : Prop :=
  match m s with
  | Ok (a, s') => Q a s'
  | Raise _ => False
  end.

Lemma wp_elim {A} (m : M A) s Q :
  wp m s Q → ∃ a s', m s = Ok (a, s') ∧ Q a s'.
Proof.
  unfold wp. destruct (m s) as [[a s']|e]; [eauto | tauto].
Qed.

Lemma wp_intro {A} (m : M A) s a s' (Q : A → state → Prop) :
  m s = Ok (a, s') → Q a s' → wp m s Q.
Proof. unfold wp. intros ->. done. Qed.

Lemma wp_ret {A} (a : A) s (Q : A → state → Prop) : Q a s → wp (mret a) s Q.
Proof. done. Qed.

Lemma wp_bind {A B} (m : M A) (f : A → M B) s Q :
  wp m s (λ a s', wp (f a) s' Q) → wp (m ≫= f) s Q.
Proof.
  unfold wp, mbind, M_bind. destruct (m s) as [[a s']|e]; done.
Qed.

Lemma wp_mono {A} (m : M A) s (Q Q' : A → state → Prop) :
  wp m s Q → (∀ a s', Q a s' → Q' a s') → wp m s Q'.
Proof.
  unfold wp. destruct (m s) as [[a s']|e]; [auto | tauto].
Qed.

Ltac wp_bind := apply wp_bind.
Ltac wp_ret := apply wp_ret.

Lemma wp_index {A} (l : list A) i x s (Q : A → state → Prop) :
  l !! i = Some x → Q x s → wp (index l i) s Q.
Proof. unfold index. intros ->. done. Qed.

Lemma wp_lift {A} (r : result A) a s (Q : A → state → Prop) :
  r = Ok a → Q a s → wp (lift r) s Q.
Proof. intros ->. done. Qed.

Lemma wp_deref c o s (Q : Chromosome → state → Prop) :
  heap s !! c = Some o → Q o s → wp (deref c) s Q.
Proof. unfold wp, deref. intros ->. done. Qed.

Lemma wp_store c o s (Q : unit → state → Prop) :
  Q tt (mkState (<[c := o]> (heap s)) (gen s) (stat_txt s) (stdout s)) →
  wp (store c o) s Q.
Proof. done. Qed.

Lemma wp_new_Chromosome s (Q : loc → state → Prop) :
  Q (length (heap s))
    (mkState (heap s ++ [Chromosome_init]) (gen s) (stat_txt s) (stdout s)) →
  wp new_Chromosome s Q.
Proof. done. Qed.

Lemma wp_random_randint a b s (Q : Z → state → Prop) :
  (a ≤ b)%Z →
  Q (randint a b (gen s)).1
    (mkState (heap s) (randint a b (gen s)).2 (stat_txt s) (stdout s)) →
  wp (random_randint a b) s Q.
Proof.
  intros Hab HQ. unfold wp, random_randint. rewrite decide_True by done.
  by destruct (randint a b (gen s)).
Qed.

Lemma wp_random_uniform a b s (Q : float → state → Prop) :
  Q (uniform a b (gen s)).1
    (mkState (heap s) (uniform a b (gen s)).2 (stat_txt s) (stdout s)) →
  wp (random_uniform a b) s Q.
Proof.
  intros HQ. unfold wp, random_uniform. by destruct (uniform a b (gen s)).
Qed.

Lemma wp_random_shuffle l s (Q : list loc → state → Prop) :
  Q (shuffle l (gen s)).1
    (mkState (heap s) (shuffle l (gen s)).2 (stat_txt s) (stdout s)) →
  wp (random_shuffle l) s Q.
Proof.
  intros HQ. unfold wp, random_shuffle. by destruct (shuffle l (gen s)).
Qed.

Lemma wp_set_fitness c o f s (Q : unit → state → Prop) :
  heap s !! c = Some o →
  Q tt (mkState (<[c := {| weights := weights o; fitness := f |}]> (heap s))
          (gen s) (stat_txt s) (stdout s)) →
  wp (set_fitness c f) s Q.
Proof.
  intros Hc HQ. unfold set_fitness. wp_bind. eapply wp_deref; [done |].
  by apply wp_store.
Qed.

Lemma wp_get_weight c o i w s (Q : float → state → Prop) :
  heap s !! c = Some o → weights o !! i = Some w → Q w s →
  wp (get_weight c i) s Q.
Proof.
  intros Hc Hw HQ. unfold get_weight. wp_bind. eapply wp_deref; [done |].
  by eapply wp_index.
Qed.

Lemma wp_set_weight c o i v s (Q : unit → state → Prop) :
  heap s !! c = Some o → i < length (weights o) →
  Q tt (mkState
          (<[c := {| weights := <[i := v]> (weights o); fitness := fitness o |}]>
             (heap s))
          (gen s) (stat_txt s) (stdout s)) →
  wp (set_weight c i v) s Q.
Proof.
  intros Hc Hi HQ. unfold set_weight. wp_bind. eapply wp_deref; [done |].
  rewrite decide_True by done. by apply wp_store.
Qed.

(** Loop rule: [I k] holds of the loop-carried variables and the state when
    [k] items have been processed. *)
Lemma wp_for_in {A V} (I : nat → V → state → Prop) (l : list A)
    (body : A → V → M V) v st :
  I 0 v st →
  (∀ k x v st, l !! k = Some x → I k v st → wp (body x v) st (I (S k))) →
  wp (for_in l body v) st (I (length l)).
Proof.
  revert I v st. induction l as [|x l IH]; intros I v st H0 Hstep; simpl.
  - by apply wp_ret.
  - apply wp_bind. eapply wp_mono; [apply (Hstep 0 x); done |].
    intros v' st' Hv'. apply (IH (λ k, I (S k))); [done |].
    intros k y v'' st'' Hy. by apply (Hstep (S k)).
Qed.

Lemma lookup_range n k x : range n !! k = Some x → x = k ∧ (Z.of_nat k < n)%Z.
Proof.
  unfold range. intros [-> Hk]%lookup_seq. split; [done | lia].
Qed.

Lemma length_range n : length (range n) = Z.to_nat n.
Proof. apply length_seq. Qed.

(** ** Fitness evaluation *)

Lemma matching_rows_bounds weights data k :
  (0 ≤ matching_rows weights data k ≤ Z.of_nat k)%Z.
Proof.
  induction k as [|k IH]; simpl; [lia |].
  destruct (predicted_right weights data k); lia.
Qed.

Lemma evaluate_sigmoid_total weights values :
  evaluate_sigmoid weights values = Ok 1%Z ∨
  evaluate_sigmoid weights values = Ok (-1)%Z.
Proof.
  unfold evaluate_sigmoid, py_truediv.
  destruct (_ <? 0)%float; rewrite exp_denominator;
    destruct (0.5 <=? _)%float; auto.
Qed.

(** A float is not both at least zero and below zero. *)
Lemma float_sign_exclusive (d : float) :
  (0 <=? d)%float = true → (d <? 0)%float = false.
Proof.
  rewrite leb_spec, ltb_spec. change (Prim2SF 0) with (S754_zero false).
  unfold SFleb, SFltb.
  destruct (Prim2SF d) as [[]|[]| |[] m e]; simpl; done.
Qed.

Lemma well_formed_data_lookup data i row :
  well_formed_data data = true → data !! i = Some row → length row = GENES.
Proof.
  unfold well_formed_data. rewrite forallb_forall. intros Hwf Hrow.
  eapply bool_decide_eq_true_1. apply Hwf, list_elem_of_In.
  by eapply list_elem_of_lookup_2.
Qed.

(** The counting loop counts a row as a success exactly when it is
    predicted right, and as a failure otherwise. *)
Lemma count_predictions_loop weights data s :
  well_formed_data data = true →
  let n := Z.to_nat (Z.of_nat (length data) - 1) in
  wp (count_predictions weights data) s (λ '(success, fail) s',
    s' = s ∧ success = matching_rows weights data n ∧
    (success + fail = Z.of_nat n)%Z).
Proof.
  intros Hwf n. subst n. unfold count_predictions.
  rewrite <- (length_range (Z.of_nat (length data) - 1)).
  apply (wp_for_in (λ k '(success, fail) s',
    s' = s ∧ success = matching_rows weights data k ∧
    (success + fail = Z.of_nat k)%Z)).
  { split; [done |]. split; [done | lia]. }
  intros k i [success fail] st [-> Hk]%lookup_range (-> & -> & Hsum).
  assert (is_Some (data !! k)) as [row Hrow] by (apply lookup_lt_is_Some; lia).
  assert (is_Some (data !! (k + 1))) as [next Hnext]
    by (apply lookup_lt_is_Some; lia).
  pose proof (well_formed_data_lookup _ _ _ Hwf Hrow) as Lrow.
  pose proof (well_formed_data_lookup _ _ _ Hwf Hnext) as Lnext.
  assert (is_Some (row !! 3)) as [close Hclose]
    by (apply lookup_lt_is_Some; rewrite Lrow; unfold GENES; lia).
  assert (is_Some (next !! 3)) as [next_close Hnc]
    by (apply lookup_lt_is_Some; rewrite Lnext; unfold GENES; lia).
  wp_bind. eapply wp_index; [done |].
  simpl matching_rows. unfold predicted_right, price_direction.
  rewrite Hrow, Hnext, Hclose, Hnc.
  destruct (evaluate_sigmoid_total weights row) as [Hres|Hres];
    rewrite Hres; (wp_bind; eapply wp_lift; [done |]);
    (wp_bind; eapply wp_index; [done |]);
    (wp_bind; eapply wp_index; [done |]);
    (wp_bind; eapply wp_index; [done |]); simpl;
    (destruct (0 <=? next_close - close)%float eqn:Hge; simpl;
     [rewrite ?(float_sign_exclusive _ Hge) |
      destruct (next_close - close <? 0)%float eqn:Hlt]); simpl;
    wp_ret; (split; [done |]); split; try lia;
    rewrite ?bool_decide_eq_true_2, ?bool_decide_eq_false_2 by done; lia.
Qed.

(** C1: on a well-formed dataset of [L] rows,
    [evaluate_fitness] returns normally and sets the chromosome's fitness to
    the number of rows, among the first [L - 1], whose predicted direction is
    the direction the closing price takes; no row is compared when [L = 0].
    The fitness lies in [0, max(L - 1, 0)], the success and failure counters
    add up to [max(L - 1, 0)], and fewer than 2 rows give fitness 0. *)
Theorem evaluate_fitness_counts_right_predictions s chromosome o data :
  heap s !! chromosome = Some o →
  well_formed_data data = true →
  let L := Z.of_nat (length data) in
  ∃ success fail s',
    count_predictions (weights o) data s = Ok ((success, fail), s) ∧
    evaluate_fitness chromosome data s = Ok (tt, s') ∧
    heap s' = <[chromosome := {| weights := weights o; fitness := success |}]>
                (heap s) ∧
    heap s' !! chromosome
      = Some {| weights := weights o; fitness := success |} ∧
    success = matching_rows (weights o) data (Z.to_nat (L - 1)) ∧
    (0 ≤ success ≤ Z.max 0 (L - 1))%Z ∧
    (success + fail = Z.max 0 (L - 1))%Z ∧
    ((L < 2)%Z → success = 0%Z).
Proof.
  intros Hc Hwf L.
  pose proof (count_predictions_loop (weights o) data s Hwf) as Hloop.
  simpl in Hloop. fold L in Hloop.
  destruct (wp_elim _ _ _ Hloop) as ([success fail] & s1 & Hrun & -> & Hs & Hsum).
  pose proof (matching_rows_bounds (weights o) data (Z.to_nat (L - 1))) as Hb.
  rewrite <- Hs in Hb.
  exists success, fail.
  eexists. split; [done |]. split.
  { unfold evaluate_fitness, mbind, M_bind.
    unfold deref at 1. rewrite Hc, Hrun.
    unfold set_fitness, mbind, M_bind, deref. rewrite Hc. reflexivity. }
  simpl. split; [done |]. split.
  { apply list_lookup_insert_eq. by eapply lookup_lt_Some. }
  split; [done |]. split; [lia |]. split; [lia |].
  intros HL. replace (Z.to_nat (L - 1)) with 0 in Hs by lia. done.
Qed.

(** ** Crossover *)

Lemma drawn_cuts_range g :
  (0 ≤ drawn_cut1 g ≤ 3)%Z ∧ (4 ≤ drawn_cut2 g ≤ 6)%Z.
Proof.
  unfold drawn_cut1, drawn_cut2. split; apply randint_range; lia.
Qed.

Lemma draw_gene_inc_range g :
  (0 ≤ inc1 (draw_gene g) ≤ 10)%Z ∧ (0 ≤ inc2 (draw_gene g) ≤ 10)%Z.
Proof.
  unfold draw_gene. simpl. split.
  - destruct (_ <=? 0.5)%float; [apply randint_range |]; simpl; lia.
  - destruct ((uniform 0 1 (uniform 0 1 g).2).1 <=? 0.5)%float;
      [apply randint_range |]; simpl; lia.
Qed.

Lemma wp_crossover_gene cut1 cut2 child first second i mut st och ofst osnd w0
    (Q : unit → state → Prop) :
  heap st !! child = Some och →
  weights och !! i = Some w0 →
  heap st !! first = Some ofst →
  heap st !! second = Some osnd →
  i < length (weights ofst) →
  i < length (weights osnd) →
  (∀ v,
     new_gene cut1 cut2 (weights ofst) (weights osnd) i w0 mut
       (randint 0 10 (gen st)).1 = Some v →
     Q tt (mkState
             (<[child := {| weights := <[i := v]> (weights och);
                            fitness := fitness och |}]> (heap st))
             (if (mut <=? 0.5)%float then (randint 0 10 (gen st)).2 else gen st)
             (stat_txt st) (stdout st))) →
  wp (crossover_gene 0.5 cut1 cut2 child first second i mut) st Q.
Proof.
  intros Hch Hw0 Hf Hs Hif His HQ.
  assert (i < length (weights och)) as Hich by by eapply lookup_lt_Some.
  destruct (lookup_lt_is_Some_2 _ _ Hif) as [wf Hwf].
  destruct (lookup_lt_is_Some_2 _ _ His) as [ws Hws].
  unfold crossover_gene. unfold new_gene in HQ.
  destruct (mut <=? 0.5)%float.
  - wp_bind. eapply wp_get_weight; [done | done |].
    wp_bind. apply wp_random_randint; [lia |].
    eapply wp_set_weight; [done | done |]. simpl. by apply HQ.
  - destruct (Z.of_nat i <? cut1)%Z;
      [| destruct ((cut1 <=? Z.of_nat i)%Z && (Z.of_nat i <? cut2)%Z)];
      (wp_bind; eapply wp_get_weight; [done | done |]);
      (eapply wp_set_weight; [done | done |]); by apply HQ.
Qed.

Lemma lookup_tail2_fst {A} (h : list A) a b : (h ++ [a; b]) !! length h = Some a.
Proof. by rewrite lookup_app_r, Nat.sub_diag. Qed.

Lemma lookup_tail2_snd {A} (h : list A) a b :
  (h ++ [a; b]) !! S (length h) = Some b.
Proof.
  rewrite lookup_app_r by lia. by replace (S (length h) - length h) with 1 by lia.
Qed.

Lemma insert_tail2_fst {A} (h : list A) a b x :
  <[length h := x]> (h ++ [a; b]) = h ++ [x; b].
Proof. by rewrite insert_app_r_alt, Nat.sub_diag. Qed.

Lemma insert_tail2_snd {A} (h : list A) a b x :
  <[S (length h) := x]> (h ++ [a; b]) = h ++ [a; x].
Proof.
  rewrite insert_app_r_alt by lia.
  by replace (S (length h) - length h) with 1 by lia.
Qed.

Lemma crossover_body s c1 c2 o1 o2 k st :
  heap s !! c1 = Some o1 →
  heap s !! c2 = Some o2 →
  length (weights o1) = GENES →
  length (weights o2) = GENES →
  k < GENES →
  crossover_inv s o1 o2 k st →
  wp (mut1 ← random_uniform 0 1;
      mut2 ← random_uniform 0 1;
      _ ← crossover_gene 0.5 (drawn_cut1 (gen s)) (drawn_cut2 (gen s))
            (length (heap s)) c1 c2 k mut1;
      crossover_gene 0.5 (drawn_cut1 (gen s)) (drawn_cut2 (gen s))
        (S (length (heap s))) c2 c1 k mut2) st
     (λ _ st', crossover_inv s o1 o2 (S k) st').
Proof.
  intros H1 H2 L1 L2 Hk (oA & oB & -> & FA & FB & LA & LB & Hdone & Htodo).
  destruct (Htodo k) as [HA0 HB0]; [lia | done |].
  assert (c1 < length (heap s)) as Hc1 by by eapply lookup_lt_Some.
  assert (c2 < length (heap s)) as Hc2 by by eapply lookup_lt_Some.
  wp_bind. apply wp_random_uniform. simpl.
  wp_bind. apply wp_random_uniform. simpl.
  wp_bind. eapply (wp_crossover_gene _ _ _ _ _ _ _ _ oA o1 o2 0%float); simpl;
    [apply lookup_tail2_fst | done | by rewrite lookup_app_l
    | by rewrite lookup_app_l | lia | lia |].
  intros vA HvA. rewrite insert_tail2_fst.
  eapply (wp_crossover_gene _ _ _ _ _ _ _ _ oB o2 o1 0%float); simpl;
    [apply lookup_tail2_snd | done | by rewrite lookup_app_l
    | by rewrite lookup_app_l | lia | lia |].
  intros vB HvB. rewrite insert_tail2_snd.
  exists {| weights := <[k := vA]> (weights oA); fitness := fitness oA |},
         {| weights := <[k := vB]> (weights oB); fitness := fitness oB |}.
  simpl. rewrite !length_insert.
  set (g := gene_rng (gen s) k) in *.
  split.
  {
    destruct ((uniform 0 1 g).1 <=? 0.5)%float;
      destruct ((uniform 0 1 (uniform 0 1 g).2).1 <=? 0.5)%float; done. }
  do 4 (split; [done |]). split.
  - intros i Hi. destruct (decide (i = k)) as [-> | Hne].
    + rewrite !list_lookup_insert_eq by lia. rewrite <- HvA, <- HvB.
      unfold gene_draw. fold g. unfold draw_gene, new_gene. simpl.
      destruct ((uniform 0 1 g).1 <=? 0.5)%float;
        destruct ((uniform 0 1 (uniform 0 1 g).2).1 <=? 0.5)%float; done.
    + rewrite !list_lookup_insert_ne by done. apply Hdone. lia.
  - intros i Hi Hi'. rewrite !list_lookup_insert_ne by lia.
    apply Htodo; lia.
Qed.

Lemma crossover_run s c1 c2 o1 o2 :
  heap s !! c1 = Some o1 →
  heap s !! c2 = Some o2 →
  length (weights o1) = GENES →
  length (weights o2) = GENES →
  ∃ st,
    crossover c1 c2 s = Ok ([length (heap s); S (length (heap s))], st) ∧
    crossover_inv s o1 o2 GENES st.
Proof.
  intros H1 H2 L1 L2.
  assert (c1 < length (heap s)) as Hc1 by by eapply lookup_lt_Some.
  cut (wp (crossover c1 c2) s (λ r st,
         r = [length (heap s); S (length (heap s))] ∧
         crossover_inv s o1 o2 GENES st)).
  { intros (r & st & Hrun & -> & Hinv)%wp_elim. eauto. }
  unfold crossover.
  wp_bind. apply wp_random_randint; [lia |].
  wp_bind. apply wp_random_randint; [lia |].
  wp_bind. apply wp_new_Chromosome.
  wp_bind. apply wp_new_Chromosome. cbn [heap gen stat_txt stdout].
  wp_bind. eapply wp_deref.
  { cbn [heap]. rewrite <- H1. rewrite !lookup_app_l; [done | done |].
    rewrite length_app. lia. }
  wp_bind. rewrite length_app, Nat.add_1_r, <- app_assoc. cbn [app].
  rewrite L1. eapply wp_mono.
  - apply (wp_for_in (λ k _ st, crossover_inv s o1 o2 k st)).
    + exists Chromosome_init, Chromosome_init.
      do 5 (split; [done |]). split; [intros i Hi; lia |].
      intros i _ Hi. unfold Chromosome_init. cbn [weights].
      by rewrite lookup_replicate_2.
    + intros k x [] st [-> Hk]%lookup_range Hinv.
      apply (crossover_body s c1 c2 o1 o2 k st); [done .. | lia | done].
  - intros [] st Hinv. rewrite length_range, Nat2Z.id in Hinv. by wp_ret.
Qed.

(** What is in the store after a crossover, child by child. *)
Lemma crossover_children s c1 c2 o1 o2 :
  heap s !! c1 = Some o1 →
  heap s !! c2 = Some o2 →
  length (weights o1) = GENES →
  length (weights o2) = GENES →
  ∃ oA oB s',
    crossover c1 c2 s = Ok ([length (heap s); S (length (heap s))], s') ∧
    heap s' = heap s ++ [oA; oB] ∧
    stat_txt s' = stat_txt s ∧ stdout s' = stdout s ∧
    length (weights oA) = GENES ∧ length (weights oB) = GENES ∧
    ∀ i, i < GENES →
      weights oA !! i
        = new_gene (drawn_cut1 (gen s)) (drawn_cut2 (gen s))
            (weights o1) (weights o2) i 0
            (mut1 (gene_draw (gen s) i)) (inc1 (gene_draw (gen s) i)) ∧
      weights oB !! i
        = new_gene (drawn_cut1 (gen s)) (drawn_cut2 (gen s))
            (weights o2) (weights o1) i 0
            (mut2 (gene_draw (gen s) i)) (inc2 (gene_draw (gen s) i)).
Proof.
  intros H1 H2 L1 L2.
  destruct (crossover_run s c1 c2 o1 o2 H1 H2 L1 L2)
    as (st & Hrun & oA & oB & -> & _ & _ & LA & LB & Hgenes & _).
  exists oA, oB. eexists. split; [exact Hrun |]. by cbn.
Qed.

(** C2: [crossover] draws [cut1] in [0,3] and [cut2] in [4,6]; a gene of
    child A that is not mutated is parent A's gene at the same index when
    [i < cut1] or [i >= cut2] and parent B's when [cut1 <= i < cut2]; child B
    has the mirrored mapping. *)
Theorem crossover_two_point_segments s c1 c2 o1 o2 :
  heap s !! c1 = Some o1 →
  heap s !! c2 = Some o2 →
  length (weights o1) = GENES →
  length (weights o2) = GENES →
  let cut1 := drawn_cut1 (gen s) in
  let cut2 := drawn_cut2 (gen s) in
  (0 ≤ cut1 ≤ 3)%Z ∧ (4 ≤ cut2 ≤ 6)%Z ∧
  ∃ childA childB oA oB s',
    crossover c1 c2 s = Ok ([childA; childB], s') ∧
    heap s' !! childA = Some oA ∧ heap s' !! childB = Some oB ∧
    ∀ i, i < GENES →
      ((mut1 (gene_draw (gen s) i) <=? 0.5)%float = false →
         ((Z.of_nat i < cut1 ∨ cut2 ≤ Z.of_nat i)%Z →
            weights oA !! i = weights o1 !! i) ∧
         ((cut1 ≤ Z.of_nat i < cut2)%Z →
            weights oA !! i = weights o2 !! i)) ∧
      ((mut2 (gene_draw (gen s) i) <=? 0.5)%float = false →
         ((Z.of_nat i < cut1 ∨ cut2 ≤ Z.of_nat i)%Z →
            weights oB !! i = weights o2 !! i) ∧
         ((cut1 ≤ Z.of_nat i < cut2)%Z →
            weights oB !! i = weights o1 !! i)).
Proof.
  intros H1 H2 L1 L2 cut1 cut2.
  destruct (drawn_cuts_range (gen s)) as [Hcut1 Hcut2].
  split; [done |]. split; [done |].
  destruct (crossover_children s c1 c2 o1 o2 H1 H2 L1 L2)
    as (oA & oB & s' & Hrun & Hheap & _ & _ & _ & _ & Hgenes).
  exists (length (heap s)), (S (length (heap s))), oA, oB, s'.
  split; [done |]. rewrite Hheap.
  split; [apply lookup_tail2_fst |]. split; [apply lookup_tail2_snd |].
  intros i Hi. destruct (Hgenes i Hi) as [-> ->]. fold cut1 cut2.
  unfold new_gene.
  split; intros ->;
    (split; [intros Hseg | intros Hseg]);
    destruct (Z.ltb_spec (Z.of_nat i) cut1);
    destruct (Z.leb_spec cut1 (Z.of_nat i));
    destruct (Z.ltb_spec (Z.of_nat i) cut2); simpl; done || lia.
Qed.

(** C3: for every gene index and each child, either the mutation roll is at
    most 0.5 and the gene is the default gene value of a new chromosome plus
    an integer drawn in [0,10], or the roll is above 0.5 and the gene is the
    gene of one of the parents at that index, copied as it is. *)
Theorem crossover_mutation_excludes_copy s c1 c2 o1 o2 :
  heap s !! c1 = Some o1 →
  heap s !! c2 = Some o2 →
  length (weights o1) = GENES →
  length (weights o2) = GENES →
  ∃ childA childB oA oB s',
    crossover c1 c2 s = Ok ([childA; childB], s') ∧
    heap s' !! childA = Some oA ∧ heap s' !! childB = Some oB ∧
    ∀ i, i < GENES →
      let d := gene_draw (gen s) i in
      (((mut1 d <=? 0.5)%float = true ∧ (0 ≤ inc1 d ≤ 10)%Z ∧
        ∃ w0, weights Chromosome_init !! i = Some w0 ∧
              weights oA !! i = Some (w0 + float_of_Z (inc1 d))%float)
       ∨ ((mut1 d <=? 0.5)%float = false ∧
          (weights oA !! i = weights o1 !! i ∨
           weights oA !! i = weights o2 !! i))) ∧
      (((mut2 d <=? 0.5)%float = true ∧ (0 ≤ inc2 d ≤ 10)%Z ∧
        ∃ w0, weights Chromosome_init !! i = Some w0 ∧
              weights oB !! i = Some (w0 + float_of_Z (inc2 d))%float)
       ∨ ((mut2 d <=? 0.5)%float = false ∧
          (weights oB !! i = weights o1 !! i ∨
           weights oB !! i = weights o2 !! i))).
Proof.
  intros H1 H2 L1 L2.
  destruct (crossover_children s c1 c2 o1 o2 H1 H2 L1 L2)
    as (oA & oB & s' & Hrun & Hheap & _ & _ & _ & _ & Hgenes).
  exists (length (heap s)), (S (length (heap s))), oA, oB, s'.
  split; [done |]. rewrite Hheap.
  split; [apply lookup_tail2_fst |]. split; [apply lookup_tail2_snd |].
  intros i Hi d. destruct (Hgenes i Hi) as [-> ->]. fold d.
  destruct (draw_gene_inc_range (gene_rng (gen s) i)) as [Hinc1 Hinc2].
  fold (gene_draw (gen s) i) in Hinc1, Hinc2. fold d in Hinc1, Hinc2.
  assert (weights Chromosome_init !! i = Some 0%float) as Hdefault
    by by apply lookup_replicate_2.
  unfold new_gene. split.
  - destruct (mut1 d <=? 0.5)%float; [left; eauto |].
    right. split; [done |].
    destruct (_ <? _)%Z; [| destruct (_ && _)]; auto.
  - destruct (mut2 d <=? 0.5)%float; [left; eauto |].
    right. split; [done |].
    destruct (_ <? _)%Z; [| destruct (_ && _)]; auto.
Qed.

(** C10: [crossover] allocates two new chromosomes, distinct from each other
    and from every chromosome of the store it started from, and leaves every
    chromosome of that store as it was, the parents' weights and fitness
    among them. *)
Theorem crossover_leaves_parents_unchanged s c1 c2 o1 o2 :
  heap s !! c1 = Some o1 →
  heap s !! c2 = Some o2 →
  length (weights o1) = GENES →
  length (weights o2) = GENES →
  ∃ childA childB s',
    crossover c1 c2 s = Ok ([childA; childB], s') ∧
    childA ≠ childB ∧
    heap s !! childA = None ∧ heap s !! childB = None ∧
    is_Some (heap s' !! childA) ∧ is_Some (heap s' !! childB) ∧
    length (heap s') = length (heap s) + 2 ∧
    heap s' !! c1 = Some o1 ∧ heap s' !! c2 = Some o2 ∧
    ∀ c o, heap s !! c = Some o → heap s' !! c = Some o.
Proof.
  intros H1 H2 L1 L2.
  destruct (crossover_children s c1 c2 o1 o2 H1 H2 L1 L2)
    as (oA & oB & s' & Hrun & Hheap & _).
  exists (length (heap s)), (S (length (heap s))), s'.
  split; [done |]. rewrite Hheap. split; [lia |].
  split; [by apply lookup_ge_None_2 |].
  split; [apply lookup_ge_None_2; lia |].
  split; [rewrite lookup_tail2_fst; eauto |].
  split; [rewrite lookup_tail2_snd; eauto |].
  split; [rewrite length_app; simpl; lia |].
  assert (∀ c o, heap s !! c = Some o → (heap s ++ [oA; oB]) !! c = Some o)
    as Hframe by (intros c o Hc; by apply lookup_app_l_Some).
  auto.
Qed.

(** ** Populations *)

Lemma valid_chromosome_spec h c :
  valid_chromosome h c = true ↔
  ∃ o, h !! c = Some o ∧ length (weights o) = GENES.
Proof.
  unfold valid_chromosome. destruct (h !! c) as [o|].
  - rewrite bool_decide_eq_true. split; [eauto |]. by intros (? & [= <-] & ?).
  - split; [done |]. by intros (? & ? & ?).
Qed.

Lemma valid_population_spec h population :
  valid_population h population = true ↔
  ∀ c, c ∈ population → ∃ o, h !! c = Some o ∧ length (weights o) = GENES.
Proof.
  unfold valid_population. rewrite forallb_forall. split.
  - intros H c Hc. apply valid_chromosome_spec, H. by apply list_elem_of_In.
  - intros H c Hc. apply valid_chromosome_spec, H. by apply list_elem_of_In.
Qed.

Lemma wp_crossover s c1 c2 o1 o2 (Q : list loc → state → Prop) :
  heap s !! c1 = Some o1 →
  heap s !! c2 = Some o2 →
  length (weights o1) = GENES →
  length (weights o2) = GENES →
  (∀ oA oB s',
     heap s' = heap s ++ [oA; oB] →
     stat_txt s' = stat_txt s → stdout s' = stdout s →
     length (weights oA) = GENES → length (weights oB) = GENES →
     Q [length (heap s); S (length (heap s))] s') →
  wp (crossover c1 c2) s Q.
Proof.
  intros H1 H2 L1 L2 HQ.
  destruct (crossover_children s c1 c2 o1 o2 H1 H2 L1 L2)
    as (oA & oB & s' & Hrun & Hheap & Hstat & Hout & LA & LB & _).
  eapply wp_intro; [done |]. by eapply HQ.
Qed.

Lemma half_nat (n : nat) : Z.to_nat (Z.of_nat n / 2) = n / 2.
Proof. change 2%Z with (Z.of_nat 2). by rewrite <- Nat2Z.inj_div, Nat2Z.id. Qed.

Lemma wp_add_children s population :
  valid_population (heap s) population = true →
  let shuffled := (shuffle population (gen s)).1 in
  let mid := length population / 2 in
  wp (add_children population) s (λ r st,
    r = shuffled ++ seq (length (heap s)) (2 * mid) ∧
    ∃ kids, allocated s kids st ∧ length kids = 2 * mid).
Proof.
  intros Hvalid shuffled mid.
  assert (shuffled ≡ₚ population) as Hperm by apply shuffle_perm.
  assert (length shuffled = length population) as Hlen by by rewrite Hperm.
  unfold add_children. wp_bind. apply wp_random_shuffle. fold shuffled.
  rewrite Hlen, half_nat. fold mid.
  assert (mid + mid ≤ length shuffled) as Hmid.
  { rewrite Hlen. unfold mid.
    pose proof (Nat.div_mod_eq (length population) 2). lia. }
  eapply wp_mono.
  - apply (wp_for_in (λ k r st,
      r = shuffled ++ seq (length (heap s)) (2 * k) ∧
      ∃ kids, allocated s kids st ∧ length kids = 2 * k)).
    { split; [by rewrite Nat.mul_0_r, app_nil_r |].
      exists []. split; [| done]. split; [by rewrite app_nil_r |]. done. }
    intros k i r st [-> Hk]%lookup_range
      (-> & kids & (Hheap & Hstat & Hout & Hkids) & Hlk).
    assert (is_Some (take mid shuffled !! k)) as [c1 Hc1].
    { apply lookup_lt_is_Some. rewrite length_take. lia. }
    assert (is_Some (drop mid shuffled !! k)) as [c2 Hc2].
    { apply lookup_lt_is_Some. rewrite length_drop. lia. }
    assert (∀ c, c ∈ shuffled →
              ∃ o, heap st !! c = Some o ∧ length (weights o) = GENES)
      as Hlive.
    { intros c Hc. rewrite Hperm in Hc.
      destruct (proj1 (valid_population_spec _ _) Hvalid c Hc) as (o & Ho & Lo).
      exists o. split; [| done]. rewrite Hheap. by apply lookup_app_l_Some. }
    destruct (Hlive c1) as (o1 & H1 & L1).
    { eapply list_elem_of_lookup_2, lookup_take_Some, Hc1. }
    destruct (Hlive c2) as (o2 & H2 & L2).
    { rewrite lookup_drop in Hc2. by eapply list_elem_of_lookup_2. }
    wp_bind. eapply wp_index; [done |].
    wp_bind. eapply wp_index; [done |].
    wp_bind. eapply wp_crossover; [done .. |].
    intros oA oB s' Hheap' Hstat' Hout' LA LB. wp_ret. split.
    + rewrite Hheap, length_app, Hlk, <- app_assoc. f_equal.
      replace (2 * S k) with (2 * k + 2) by lia.
      rewrite seq_app. f_equal.
    + exists (kids ++ [oA; oB]). split.
      * split; [by rewrite Hheap', Hheap, app_assoc |].
        split; [congruence |]. split; [congruence |].
        apply Forall_app. split; [done |]. by repeat constructor.
      * rewrite length_app. simpl. lia.
  - intros r st. by rewrite length_range, Nat2Z.id.
Qed.

(** A loop over the indices of two lists is a loop over their zip. *)
Lemma for_in_index_zip {V} (f : loc → loc → V → M V) (l1 : list loc) :
  ∀ (l2 pre1 pre2 : list loc) (v : V) (st : state),
    length pre1 = length pre2 →
    length l1 ≤ length l2 →
    for_in (seq (length pre1) (length l1)) (λ i v,
        c1 ← index (pre1 ++ l1) i;
        c2 ← index (pre2 ++ l2) i;
        f c1 c2 v) v st
    = for_in (zip l1 l2) (λ pair v, f pair.1 pair.2 v) v st.
Proof.
  induction l1 as [|x l1 IH]; intros l2 pre1 pre2 v st Hpre Hlen;
    [reflexivity |].
  destruct l2 as [|y l2]; [simpl in Hlen; lia |].
  cbn [length seq zip zip_with for_in].
  unfold mbind, M_bind, index. rewrite list_lookup_middle by done.
  rewrite Hpre, list_lookup_middle by done. cbn [mret M_ret fst snd].
  destruct (f x y v st) as [[v' st']|e]; [| done].
  specialize (IH l2 (pre1 ++ [x]) (pre2 ++ [y]) v' st').
  rewrite !length_app, <- !app_assoc in IH. cbn [length app] in IH.
  rewrite !Nat.add_1_r, Hpre in IH. unfold mbind, M_bind, index in IH.
  apply IH; [done |]. simpl in Hlen. lia.
Qed.

Lemma random_shuffle_run l s :
  random_shuffle l s =
  Ok ((shuffle l (gen s)).1,
      mkState (heap s) (shuffle l (gen s)).2 (stat_txt s) (stdout s)).
Proof. unfold random_shuffle. by destruct (shuffle l (gen s)). Qed.

(** The pairs of the two halves use the first [2 * mid] members once each. *)
Lemma halves_zip_cover (l : list loc) (mid : nat) :
  mid + mid ≤ length l →
  (zip (take mid l) (drop mid l)).*1 ++ (zip (take mid l) (drop mid l)).*2
    ++ drop (2 * mid) l = l.
Proof.
  intros Hmid.
  rewrite fst_zip by (rewrite length_take, length_drop; lia).
  rewrite <- (zip_with_take_r' _ mid (take mid l) (drop mid l))
    by (rewrite length_take; lia).
  rewrite snd_zip by (rewrite !length_take, length_drop; lia).
  rewrite app_assoc, take_take_drop.
  replace (2 * mid) with (mid + mid) by lia. apply take_drop.
Qed.

(** C4: on a population of size [N], [add_children] shuffles the list, pairs
    element [i] of its first half with element [i] of its second half, for
    [N / 2] pairs, and appends the two new children of every pair: the
    result has [N + 2 * (N / 2)] members.  The pairs cover the first
    [2 * (N / 2)] members of the shuffled list once each, which leaves one
    member out when [N] is odd and none when [N] is even. *)
Theorem add_children_pairs_halves s population :
  valid_population (heap s) population = true →
  let N := length population in
  let shuffled := (shuffle population (gen s)).1 in
  let mid := N / 2 in
  let pairs := zip (take mid shuffled) (drop mid shuffled) in
  ∃ population' s1 s',
    random_shuffle population s = Ok (shuffled, s1) ∧
    add_children population s = breed pairs shuffled s1 ∧
    add_children population s = Ok (population', s') ∧
    shuffled ≡ₚ population ∧
    population' = shuffled ++ seq (length (heap s)) (2 * mid) ∧
    length population' = N + 2 * (N / 2) ∧
    length (heap s') = length (heap s) + 2 * mid ∧
    length pairs = N / 2 ∧
    (∀ i, i < mid →
       ∃ c1 c2, shuffled !! i = Some c1 ∧ shuffled !! (mid + i) = Some c2 ∧
                pairs !! i = Some (c1, c2)) ∧
    pairs.*1 ++ pairs.*2 ++ drop (2 * mid) shuffled = shuffled ∧
    length (drop (2 * mid) shuffled) = N `mod` 2.
Proof.
  intros Hvalid N shuffled mid pairs.
  assert (shuffled ≡ₚ population) as Hperm by apply shuffle_perm.
  assert (length shuffled = N) as Hlen by by rewrite Hperm.
  pose proof (Nat.div_mod_eq N 2) as HN. fold mid in HN.
  pose proof (Nat.mod_upper_bound N 2) as Hmod.
  destruct (wp_elim _ _ _ (wp_add_children s population Hvalid))
    as (r & s' & Hrun & -> & kids & (Hheap & _) & Hkids).
  fold shuffled N mid in Hrun, Hkids |- *.
  exists (shuffled ++ seq (length (heap s)) (2 * mid)).
  exists (mkState (heap s) (shuffle population (gen s)).2 (stat_txt s) (stdout s)).
  exists s'.
  assert (length (take mid shuffled) = mid) as Ltake
    by (rewrite length_take; lia).
  split; [apply random_shuffle_run |].
  split.
  { unfold add_children, breed. unfold mbind at 1. unfold M_bind at 1.
    rewrite random_shuffle_run. fold shuffled.
    rewrite Hlen, half_nat. fold mid. unfold range. rewrite Nat2Z.id.
    rewrite <- Ltake at 1.
    apply (for_in_index_zip
             (λ c1 c2 v, children ← crossover c1 c2; mret (v ++ children))
             (take mid shuffled) (drop mid shuffled) [] []); [done |].
    rewrite length_take, length_drop. lia. }
  split; [done |]. split; [done |]. split; [done |].
  split. { rewrite length_app, length_seq. lia. }
  split. { rewrite Hheap, length_app. lia. }
  split. { unfold pairs. rewrite length_zip, length_take, length_drop. lia. }
  split.
  { intros i Hi.
    destruct (lookup_lt_is_Some_2 shuffled i) as [c1 Hc1]; [lia |].
    destruct (lookup_lt_is_Some_2 shuffled (mid + i)) as [c2 Hc2]; [lia |].
    exists c1, c2. split; [done |]. split; [done |].
    unfold pairs. apply lookup_zip_with_Some. exists c1, c2.
    split; [done |]. split; [by rewrite lookup_take_lt | by rewrite lookup_drop]. }
  split; [apply halves_zip_cover; lia |].
  rewrite length_drop. lia.
Qed.

(** ** Selection *)

Lemma live_population_spec h population :
  live_population h population = true ↔
  ∀ c, c ∈ population → is_Some (h !! c).
Proof.
  unfold live_population. rewrite forallb_forall. split.
  - intros H c Hc. apply lookup_lt_is_Some.
    eapply bool_decide_eq_true_1, H. by apply list_elem_of_In.
  - intros H c Hc. apply bool_decide_eq_true_2, lookup_lt_is_Some, H.
    by apply list_elem_of_In.
Qed.

Lemma valid_population_live h population :
  valid_population h population = true → live_population h population = true.
Proof.
  rewrite valid_population_spec, live_population_spec. intros H c Hc.
  destruct (H c Hc) as (o & -> & _). eauto.
Qed.

(** [l.remove(x)] takes one occurrence of a member out. *)
Lemma list_remove_member x l :
  x ∈ l → ∃ l', list_remove x l = Some l' ∧ l ≡ₚ x :: l'.
Proof.
  induction l as [|y l IH]; intros Hx; [by apply elem_of_nil in Hx |].
  simpl. destruct (decide (y = x)) as [-> | Hne]; [eauto |].
  apply elem_of_cons in Hx as [-> | Hx]; [done |].
  destruct (IH Hx) as (l' & -> & Hperm). exists (y :: l'). split; [done |].
  by rewrite Hperm, Permutation_swap.
Qed.

Lemma wp_remove x l s (Q : list loc → state → Prop) :
  x ∈ l →
  (∀ l', l ≡ₚ x :: l' → Q l' s) →
  wp (remove x l) s Q.
Proof.
  intros Hx HQ. destruct (list_remove_member x l Hx) as (l' & Hrm & Hperm).
  unfold remove. rewrite Hrm. wp_ret. by apply HQ.
Qed.

(** The scan returns a member of the pool (or the initial candidate), and
    reads the store only. *)
Lemma wp_scan_best population best s :
  (∀ c, c ∈ population → is_Some (heap s !! c)) →
  is_Some (heap s !! best) →
  wp (scan_best population best) s (λ r st,
    st = s ∧ (r = best ∨ r ∈ population)).
Proof.
  intros Hlive Hbest. unfold scan_best. eapply wp_mono.
  - apply (wp_for_in (λ k r st,
      st = s ∧ (r = best ∨ r ∈ population))); [by auto |].
    intros k x r st Hx [-> Hr].
    assert (x ∈ population) as Hxin by by eapply list_elem_of_lookup_2.
    destruct (Hlive x Hxin) as [ox Hox].
    assert (is_Some (heap s !! r)) as [ob Hob]
      by (destruct Hr as [-> | Hr]; auto).
    wp_bind. eapply wp_deref; [done |].
    wp_bind. eapply wp_deref; [done |].
    destruct (fitness ox >? fitness ob)%Z; wp_ret; auto.
  - intros r st H. exact H.
Qed.

Lemma wp_select_fittest s population :
  live_population (heap s) population = true →
  wp (select_fittest population) s (λ '(fittest, rest) st,
    same_store s st ∧
    length fittest = length population / 2 ∧
    fittest ++ rest ≡ₚ population).
Proof.
  intros Hlive. rewrite live_population_spec in Hlive. unfold select_fittest.
  pose proof (Nat.div_mod_eq (length population) 2) as Hdiv.
  eapply wp_mono.
  - apply (wp_for_in (λ k '(fittest, pool) st,
      same_store s st ∧ length fittest = k ∧ fittest ++ pool ≡ₚ population)).
    { split; [done |]. split; [done |]. done. }
    intros k c [fittest pool] st [-> Hk]%lookup_range (Hsame & Hlen & Hperm).
    destruct Hsame as (Hheap & Hstat & Hout).
    assert (k < length population / 2) as Hk'.
    { apply Nat2Z.inj_lt. rewrite Nat2Z.inj_div. exact Hk. }
    assert (length pool = length population - k) as Hpool.
    { rewrite <- Hperm, length_app. lia. }
    assert (∀ x, x ∈ pool → is_Some (heap st !! x)) as Hpl.
    { intros x Hx. rewrite Hheap. apply Hlive. rewrite <- Hperm.
      apply elem_of_app. by right. }
    assert (∀ x pool', x ∈ pool → pool ≡ₚ x :: pool' →
              (fittest ++ [x]) ++ pool' ≡ₚ population) as Hmove.
    { intros x pool' Hx Hp. rewrite <- Hperm, Hp, <- app_assoc. done. }
    wp_bind. apply wp_random_uniform.
    destruct (_ <=? _)%float.
    + wp_bind. apply wp_random_randint; cbn [heap gen]; [lia |].
      match goal with |- context [randint ?a ?b ?g] =>
        pose proof (randint_range a b g ltac:(lia)) as Hr;
        set (r := randint a b g) in * end.
      destruct (lookup_lt_is_Some_2 pool (Z.to_nat r.1)) as [x Hx]; [lia |].
      assert (x ∈ pool) as Hxin by by eapply list_elem_of_lookup_2.
      wp_bind. eapply wp_index; [done |].
      wp_bind. apply wp_remove; [done |]. intros pool' Hp. wp_ret.
      split; [done |]. split; [rewrite length_app; simpl; lia |]. auto.
    + destruct (lookup_lt_is_Some_2 pool 0) as [x Hx]; [lia |].
      assert (x ∈ pool) as Hxin by by eapply list_elem_of_lookup_2.
      wp_bind. eapply wp_index; [done |].
      wp_bind. eapply wp_mono; [apply wp_scan_best |].
      * intros c' Hc'. cbn [heap]. auto.
      * cbn [heap]. auto.
      * intros best st' [-> Hbest]. cbn beta.
        assert (best ∈ pool) as Hbin by (destruct Hbest as [-> |]; done).
        wp_bind. apply wp_remove; [done |]. intros pool' Hp. wp_ret.
        split; [done |]. split; [rewrite length_app; simpl; lia |]. auto.
  - intros [fittest rest] st. rewrite length_range.
    change 2%Z with (Z.of_nat 2).
    by rewrite <- Nat2Z.inj_div, Nat2Z.id.
Qed.

(** C5: on a population of [n] live chromosomes, [select_fittest] returns
    exactly [n / 2] survivors.  The survivors together with what is left of
    the pool are a rearrangement of the input: every survivor is a member of
    the input, and a member is selected at most as many times as it occurs
    there, so never twice when the input holds it once. *)
Theorem select_fittest_half_without_replacement s population :
  live_population (heap s) population = true →
  ∃ fittest rest s',
    select_fittest population s = Ok ((fittest, rest), s') ∧
    length fittest = length population / 2 ∧
    fittest ++ rest ≡ₚ population ∧
    (∀ c, c ∈ fittest → c ∈ population) ∧
    (NoDup population → NoDup fittest ∧ ∀ c, c ∈ fittest → c ∉ rest) ∧
    heap s' = heap s.
Proof.
  intros Hlive.
  destruct (wp_elim _ _ _ (wp_select_fittest s population Hlive))
    as ([fittest rest] & s' & Hrun & (Hheap & _) & Hlen & Hperm).
  exists fittest, rest, s'. split; [done |]. split; [done |].
  split; [done |]. split.
  { intros c Hc. rewrite <- Hperm. apply elem_of_app. by left. }
  split; [| done].
  intros Hnodup. rewrite <- Hperm in Hnodup.
  apply NoDup_app in Hnodup as (Hf & Hdisj & _). done.
Qed.

(** C6: on a population of size 0 or 1 neither operator fails.
    [add_children] leaves the population as it is.  [select_fittest] leaves
    its argument list as it is and returns an empty list of survivors. *)
Theorem degenerate_population_is_not_an_error s population :
  length population ≤ 1 →
  add_children population s
    = Ok (population,
          mkState (heap s) (shuffle population (gen s)).2
            (stat_txt s) (stdout s)) ∧
  select_fittest population s = Ok (([], population), s).
Proof.
  intros Hlen. split.
  - unfold add_children. unfold mbind, M_bind.
    rewrite random_shuffle_run.
    pose proof (shuffle_perm population (gen s)) as Hperm.
    assert ((shuffle population (gen s)).1 = population) as ->.
    { destruct population as [|c [|c' l]]; [| | simpl in Hlen; lia].
      - by apply Permutation_nil_r.
      - by apply Permutation_singleton_r. }
    by destruct population as [|c [|c' l]]; [| | simpl in Hlen; lia].
  - by destruct population as [|c [|c' l]]; [| | simpl in Hlen; lia].
Qed.

(** ** Average fitness *)

Lemma total_fitness_app h l1 l2 :
  total_fitness h (l1 ++ l2) = (total_fitness h l1 + total_fitness h l2)%Z.
Proof. induction l1 as [|c l1 IH]; simpl; lia. Qed.

(** The loop of [avg_fitness] computes the sum of the fitness values. *)
Lemma fit_sum_loop s population :
  live_population (heap s) population = true →
  for_in population (λ chromosome fit_sum,
    o ← deref chromosome;
    mret (fit_sum + fitness o)%Z) 0%Z s
  = Ok (total_fitness (heap s) population, s).
Proof.
  intros Hlive. rewrite live_population_spec in Hlive.
  cut (wp (for_in population (λ chromosome fit_sum,
             o ← deref chromosome; mret (fit_sum + fitness o)%Z) 0%Z) s
         (λ fit_sum st, st = s ∧ fit_sum = total_fitness (heap s) population)).
  { by intros (a & st & -> & -> & ->)%wp_elim. }
  eapply wp_mono.
  - apply (wp_for_in (λ k fit_sum st,
      st = s ∧ fit_sum = total_fitness (heap s) (take k population)));
      [done |].
    intros k c fit_sum st Hc [-> ->].
    destruct (Hlive c) as [o Ho]; [by eapply list_elem_of_lookup_2 |].
    wp_bind. eapply wp_deref; [done |]. wp_ret. split; [done |].
    rewrite (take_S_r _ _ _ Hc), total_fitness_app. simpl.
    unfold fitness_of. rewrite Ho. lia.
  - intros fit_sum st [-> ->]. by rewrite firstn_all.
Qed.

(** What [avg_fitness] does, case by case. *)
Lemma avg_fitness_run s population :
  live_population (heap s) population = true →
  avg_fitness population s =
  let size := Z.of_nat (length population) in
  let fit_sum := total_fitness (heap s) population in
  if negb (size <? FLOAT_OVERFLOW)%Z then Raise OverflowError
  else if negb (Z.abs fit_sum <? FLOAT_OVERFLOW)%Z then Raise OverflowError
  else if (size =? 0)%Z then Raise ZeroDivisionError
  else Ok ((float_of_Z fit_sum / float_of_Z size)%float, s).
Proof.
  intros Hlive. unfold avg_fitness. cbv zeta.
  unfold mbind at 1. unfold M_bind at 1. rewrite (fit_sum_loop s population Hlive).
  unfold mbind, M_bind, lift, py_float, py_truediv_int.
  rewrite (Z.abs_eq (Z.of_nat (length population))) by lia.
  destruct (_ <? FLOAT_OVERFLOW)%Z; [| done]. cbn [negb].
  destruct (Z.abs _ <? FLOAT_OVERFLOW)%Z; [| done]. cbn [negb].
  by destruct (_ =? 0)%Z.
Qed.

Lemma wp_avg_fitness s population :
  live_population (heap s) population = true →
  population ≠ [] →
  (Z.of_nat (length population) < FLOAT_OVERFLOW)%Z →
  (Z.abs (total_fitness (heap s) population) < FLOAT_OVERFLOW)%Z →
  wp (avg_fitness population) s (λ a st,
    st = s ∧
    a = (float_of_Z (total_fitness (heap s) population)
         / float_of_Z (Z.of_nat (length population)))%float).
Proof.
  intros Hlive Hne Hsize Hsum. unfold wp.
  rewrite (avg_fitness_run s population Hlive). cbv zeta.
  rewrite (proj2 (Z.ltb_lt _ _) Hsize), (proj2 (Z.ltb_lt _ _) Hsum). cbn [negb].
  destruct (Z.eqb_spec (Z.of_nat (length population)) 0) as [H0 | _]; [| done].
  destruct population; [done | simpl in H0; lia].
Qed.

(** C7: [avg_fitness] has no guard of its own, for any of the faults of
    [fit_sum/float(total)].  On an empty population the division raises
    [ZeroDivisionError], which reaches the caller; when the size or the sum
    of the fitness values is too large to convert to a float, the
    conversion raises [OverflowError], which reaches the caller as well; on
    every other non-empty population of live chromosomes it returns the sum
    of the fitness values divided by the size, in binary64 arithmetic, and
    changes nothing. *)
Theorem avg_fitness_is_unguarded_mean s population :
  live_population (heap s) population = true →
  let size := Z.of_nat (length population) in
  let fit_sum := total_fitness (heap s) population in
  (population = [] → avg_fitness population s = Raise ZeroDivisionError) ∧
  ((FLOAT_OVERFLOW ≤ size)%Z ∨ (FLOAT_OVERFLOW ≤ Z.abs fit_sum)%Z →
   avg_fitness population s = Raise OverflowError) ∧
  (population ≠ [] →
   (size < FLOAT_OVERFLOW)%Z → (Z.abs fit_sum < FLOAT_OVERFLOW)%Z →
   avg_fitness population s
     = Ok ((float_of_Z fit_sum / float_of_Z size)%float, s)).
Proof.
  intros Hlive size fit_sum. split; [by intros -> |]. split.
  - intros Hover. rewrite (avg_fitness_run s population Hlive). cbv zeta.
    fold size fit_sum.
    destruct (Z.ltb_spec size FLOAT_OVERFLOW); [| done]. cbn [negb].
    destruct (Z.ltb_spec (Z.abs fit_sum) FLOAT_OVERFLOW); [| done]. lia.
  - intros Hne Hsize Hsum.
    destruct (wp_elim _ _ _ (wp_avg_fitness s population Hlive Hne Hsize Hsum))
      as (a & st & Hrun & -> & ->).
    done.
Qed.

(** ** The evolution loop *)

Lemma valid_chromosome_app h kids c :
  valid_chromosome h c = true → valid_chromosome (h ++ kids) c = true.
Proof.
  rewrite !valid_chromosome_spec. intros (o & Ho & Lo).
  exists o. split; [by apply lookup_app_l_Some | done].
Qed.

Lemma valid_chromosome_insert h c o c' :
  length (weights o) = GENES →
  valid_chromosome h c' = true →
  valid_chromosome (<[c := o]> h) c' = true.
Proof.
  rewrite !valid_chromosome_spec. intros Lo (o' & Ho' & Lo').
  destruct (decide (c = c')) as [-> | Hne].
  - exists o. split; [| done].
    apply list_lookup_insert_eq. by eapply lookup_lt_Some.
  - exists o'. by rewrite list_lookup_insert_ne.
Qed.

Lemma valid_population_mono (h h' : list Chromosome) population :
  (∀ c, valid_chromosome h c = true → valid_chromosome h' c = true) →
  valid_population h population = true →
  valid_population h' population = true.
Proof.
  unfold valid_population. rewrite !forallb_forall. auto.
Qed.

Lemma valid_population_app h l1 l2 :
  valid_population h (l1 ++ l2) = true ↔
  valid_population h l1 = true ∧ valid_population h l2 = true.
Proof.
  unfold valid_population. rewrite forallb_app. apply andb_true_iff.
Qed.

Lemma valid_population_perm h l1 l2 :
  l1 ≡ₚ l2 → valid_population h l1 = true → valid_population h l2 = true.
Proof.
  rewrite !valid_population_spec. intros Hperm H c Hc. apply H.
  by rewrite Hperm.
Qed.

Lemma valid_population_allocated h kids n :
  Forall (λ o, length (weights o) = GENES) kids →
  n ≤ length kids →
  valid_population (h ++ kids) (seq (length h) n) = true.
Proof.
  intros Hkids Hn. apply valid_population_spec. intros c Hc.
  apply elem_of_seq in Hc.
  destruct (lookup_lt_is_Some_2 kids (c - length h)) as [o Ho]; [lia |].
  exists o. split.
  - rewrite lookup_app_r by lia. done.
  - eapply (proj1 (Forall_lookup _ _) Hkids). done.
Qed.

(** The variation step on a valid population, as the loop uses it. *)
Lemma wp_add_children_valid s population :
  valid_population (heap s) population = true →
  wp (add_children population) s (λ r st,
    length r = length population + 2 * (length population / 2) ∧
    valid_population (heap st) r = true ∧
    stat_txt st = stat_txt s ∧ stdout st = stdout s).
Proof.
  intros Hvalid. eapply wp_mono; [by apply wp_add_children |].
  intros r st (-> & kids & (Hheap & Hstat & Hout & Hkids) & Hlen).
  pose proof (shuffle_perm population (gen s)) as Hperm.
  split. { rewrite length_app, length_seq, Hperm. done. }
  split; [| done].
  rewrite Hheap. apply valid_population_app. split.
  - eapply valid_population_mono; [intros c; apply valid_chromosome_app |].
    by eapply valid_population_perm.
  - apply valid_population_allocated; [done | lia].
Qed.

Lemma wp_write_stat x s (Q : unit → state → Prop) :
  Q tt (mkState (heap s) (gen s) (stat_txt s ++ [x]) (stdout s)) →
  wp (write_stat x) s Q.
Proof. done. Qed.

Lemma wp_print_finished n s (Q : unit → state → Prop) :
  Q tt (mkState (heap s) (gen s) (stat_txt s) (stdout s ++ [n])) →
  wp (print_finished n) s Q.
Proof. done. Qed.

(** Recording needs an average: a non-empty population whose size and
    fitness sum convert to floats. *)
Lemma wp_record_stats s statistics population :
  valid_population (heap s) population = true →
  (statistics = true →
   population ≠ [] ∧
   (Z.of_nat (length population) < FLOAT_OVERFLOW)%Z ∧
   (Z.abs (total_fitness (heap s) population) < FLOAT_OVERFLOW)%Z) →
  wp (record_stats statistics population) s (λ _ st,
    heap st = heap s ∧ stdout st = stdout s ∧
    if statistics then length (stat_txt st) = S (length (stat_txt s))
    else stat_txt st = stat_txt s).
Proof.
  intros Hvalid Hne. unfold record_stats. destruct statistics; [| by wp_ret].
  destruct (Hne eq_refl) as (Hnil & Hsize & Hsum).
  wp_bind. eapply wp_mono.
  { apply wp_avg_fitness; [by apply valid_population_live | done ..]. }
  intros a st [-> _]. apply wp_write_stat. cbn.
  split; [done |]. split; [done |]. rewrite length_app. simpl. lia.
Qed.

(** ** Best individual *)

Lemma head_insert_desc x l :
  head (insert_desc x l) =
  match head l with
  | None => Some x
  | Some y => if (y.1 <=? x.1)%Z then Some x else Some y
  end.
Proof. destruct l as [|y l]; simpl; [done |]. by destruct (_ <=? _)%Z. Qed.

Lemma head_sort_desc l : head (sort_desc l) = first_max l.
Proof.
  induction l as [|a l IH]; simpl; [done |].
  by rewrite head_insert_desc, IH.
Qed.

Lemma insert_desc_perm x l : insert_desc x l ≡ₚ x :: l.
Proof.
  induction l as [|y l IH]; simpl; [done |].
  destruct (_ <=? _)%Z; [done |]. by rewrite IH, Permutation_swap.
Qed.

Lemma sort_desc_perm l : sort_desc l ≡ₚ l.
Proof.
  induction l as [|a l IH]; simpl; [done |].
  by rewrite insert_desc_perm, IH.
Qed.

Lemma insert_desc_sorted x l :
  StronglySorted (λ a b : Z * loc, (b.1 ≤ a.1)%Z) l →
  StronglySorted (λ a b : Z * loc, (b.1 ≤ a.1)%Z) (insert_desc x l).
Proof.
  induction l as [|y l IH]; intros Hl; simpl.
  - by repeat constructor.
  - apply StronglySorted_cons in Hl as [Hy Hl].
    destruct (Z.leb_spec y.1 x.1) as [Hle | Hlt].
    + apply StronglySorted_cons. split.
      * constructor; [done |]. eapply Forall_impl; [exact Hy |].
        intros b Hb. simpl in Hb. lia.
      * by apply StronglySorted_cons.
    + apply StronglySorted_cons. split; [| by apply IH].
      rewrite insert_desc_perm. constructor; [lia | done].
Qed.

Lemma sort_desc_sorted l :
  StronglySorted (λ a b : Z * loc, (b.1 ≤ a.1)%Z) (sort_desc l).
Proof.
  induction l as [|a l IH]; simpl; [constructor |].
  by apply insert_desc_sorted.
Qed.

(** The sorted items, without their keys, are in decreasing fitness. *)
Lemma sort_desc_decorate_sorted h population :
  StronglySorted (λ a b, (fitness_of h b ≤ fitness_of h a)%Z)
    (sort_desc (decorate h population)).*2.
Proof.
  assert (Forall (λ x : Z * loc, x.1 = fitness_of h x.2)
            (sort_desc (decorate h population))) as Hkeys.
  { rewrite sort_desc_perm. unfold decorate. apply Forall_fmap.
    by apply Forall_true. }
  pose proof (sort_desc_sorted (decorate h population)) as Hsorted.
  induction Hsorted as [|x l Hl IH Hx]; simpl; [constructor |].
  apply Forall_cons in Hkeys as [Hkx Hkl].
  constructor; [by apply IH |].
  apply Forall_fmap. eapply Forall_impl.
  { apply Forall_and. split; [exact Hx | exact Hkl]. }
  intros y [Hy Hky]. simpl in *. rewrite <- Hkx, <- Hky. done.
Qed.

Lemma first_max_spec l x :
  first_max l = Some x →
  ∃ i, l !! i = Some x ∧
       (∀ y, y ∈ l → (y.1 ≤ x.1)%Z) ∧
       (∀ j y, j < i → l !! j = Some y → (y.1 < x.1)%Z).
Proof.
  revert x. induction l as [|a l IH]; intros x; simpl; [done |].
  destruct (first_max l) as [y|] eqn:Hl.
  - destruct (IH y eq_refl) as (i & Hi & Hmax & Hbefore).
    destruct (Z.leb_spec y.1 a.1) as [Hle | Hlt]; intros [= <-].
    + exists 0. split; [done |]. split; [| intros j ? ?; lia].
      intros z [-> | Hz]%elem_of_cons; [lia |]. specialize (Hmax z Hz). lia.
    + exists (S i). split; [done |]. split.
      * intros z [-> | Hz]%elem_of_cons; [lia | auto].
      * intros [|j] z Hj Hz; simpl in Hz; [by injection Hz as <-; lia |].
        eapply Hbefore; [| done]. lia.
  - intros [= <-]. destruct l as [|b l]; [| simpl in Hl].
    + exists 0. split; [done |]. split; [| intros j ? ?; lia].
      intros z [-> | Hz]%elem_of_cons; [lia | by apply elem_of_nil in Hz].
    + destruct (first_max l); [destruct (_ <=? _)%Z |]; done.
Qed.

Lemma wp_get_optimal s population :
  live_population (heap s) population = true →
  population ≠ [] →
  wp (get_optimal population) s (λ '(best, sorted) st,
    st = s ∧
    sorted = (sort_desc (decorate (heap s) population)).*2 ∧
    first_max (decorate (heap s) population)
      = Some (fitness_of (heap s) best, best)).
Proof.
  intros Hlive Hne. rewrite live_population_spec in Hlive.
  unfold get_optimal. wp_bind. eapply wp_mono.
  - apply (wp_for_in (λ k keyed st,
      st = s ∧ keyed = decorate (heap s) (take k population))); [done |].
    intros k c keyed st Hc [-> ->].
    destruct (Hlive c) as [o Ho]; [by eapply list_elem_of_lookup_2 |].
    wp_bind. eapply wp_deref; [done |]. wp_ret. split; [done |].
    rewrite (take_S_r _ _ _ Hc). unfold decorate. rewrite fmap_app. simpl.
    unfold fitness_of. by rewrite Ho.
  - intros keyed st [-> ->]. rewrite firstn_all.
    destruct (first_max (decorate (heap s) population)) as [[f best]|] eqn:Hmax.
    + pose proof Hmax as Hhead. rewrite <- head_sort_desc in Hhead.
      destruct (first_max_spec _ _ Hmax) as (i & Hi & _).
      unfold decorate in Hi. rewrite list_lookup_fmap in Hi.
      destruct (population !! i) as [c|]; [| done].
      injection Hi as <- <-.
      wp_bind. eapply (wp_index _ _ c).
      { rewrite list_lookup_fmap, <- head_lookup, Hhead. done. }
      by wp_ret.
    + destruct population as [|c l]; [done |]. simpl in Hmax.
      destruct (first_max _); [destruct (_ <=? _)%Z |]; done.
Qed.

(** C9: on a non-empty population of live chromosomes, [get_optimal] sorts
    the list by decreasing fitness and returns its new first member, whose
    fitness is at least the fitness of every member; among the members of
    that fitness it is the earliest in the original order. *)
Theorem get_optimal_returns_first_fittest s population :
  live_population (heap s) population = true →
  population ≠ [] →
  ∃ best sorted,
    get_optimal population s = Ok ((best, sorted), s) ∧
    sorted ≡ₚ population ∧
    StronglySorted
      (λ a b, (fitness_of (heap s) b ≤ fitness_of (heap s) a)%Z) sorted ∧
    head sorted = Some best ∧
    ∃ i, population !! i = Some best ∧
         (∀ c, c ∈ population →
               (fitness_of (heap s) c ≤ fitness_of (heap s) best)%Z) ∧
         (∀ j c, j < i → population !! j = Some c →
                 (fitness_of (heap s) c < fitness_of (heap s) best)%Z).
Proof.
  intros Hlive Hne.
  destruct (wp_elim _ _ _ (wp_get_optimal s population Hlive Hne))
    as ([best sorted] & st & Hrun & -> & -> & Hmax).
  exists best, (sort_desc (decorate (heap s) population)).*2.
  split; [done |]. split.
  { rewrite sort_desc_perm. unfold decorate.
    rewrite <- list_fmap_compose. by rewrite list_fmap_id. }
  split; [apply sort_desc_decorate_sorted |].
  split.
  { rewrite <- head_sort_desc in Hmax.
    destruct (sort_desc _) as [|x l]; [done |]. by injection Hmax as ->. }
  destruct (first_max_spec _ _ Hmax) as (i & Hi & Hall & Hbefore).
  exists i. unfold decorate in Hi. rewrite list_lookup_fmap in Hi.
  destruct (population !! i) as [c|] eqn:Hpi; [| done].
  injection Hi as Hf <-. split; [done |]. split.
  - intros c' Hc'.
    apply (Hall (fitness_of (heap s) c', c')).
    unfold decorate. apply list_elem_of_fmap. eauto.
  - intros j c' Hj Hc'.
    eapply (Hbefore j (fitness_of (heap s) c', c')); [done |].
    unfold decorate. by rewrite list_lookup_fmap, Hc'.
Qed.

(** * Further properties *)

(** ** Raised exceptions *)

(** A prefix that returns normally, followed by code that raises. *)
Lemma raise_bind {A B} (m : M A) (f : A → M B) s (Q : A → state → Prop) e :
  wp m s Q →
  (∀ a s', Q a s' → f a s' = Raise e) →
  (m ≫= f) s = Raise e.
Proof.
  unfold wp, mbind, M_bind. destruct (m s) as [[a s']|e']; [auto | tauto].
Qed.

Lemma bind_ok {A B} (m : M A) (f : A → M B) s a s' :
  m s = Ok (a, s') → (m ≫= f) s = f a s'.
Proof. unfold mbind, M_bind. by intros ->. Qed.

(** ** Fitness evaluation on any dataset *)

Lemma has_close_lookup data i row :
  has_close data = true → data !! i = Some row → 4 ≤ length row.
Proof.
  unfold has_close. rewrite forallb_forall. intros Hwf Hrow.
  eapply bool_decide_eq_true_1. apply Hwf, list_elem_of_In.
  by eapply list_elem_of_lookup_2.
Qed.

Lemma has_close_false data :
  has_close data = false → ∃ j row, data !! j = Some row ∧ length row < 4.
Proof.
  induction data as [|row data IH]; simpl; [done |].
  destruct (bool_decide (4 ≤ length row)) eqn:Hrow; simpl.
  - intros (j & r & Hj & Hr)%IH. by exists (S j), r.
  - intros _. exists 0, row. split; [done |].
    apply bool_decide_eq_false_1 in Hrow. lia.
Qed.

(** The counting loop needs column 3 of the rows only. *)
Lemma count_predictions_close weights data s :
  has_close data = true →
  wp (count_predictions weights data) s (λ '(success, fail) s',
    s' = s ∧ success = score weights data).
Proof.
  intros Hwf. unfold count_predictions, score.
  rewrite <- (length_range (Z.of_nat (length data) - 1)).
  apply (wp_for_in (λ k '(success, fail) s',
    s' = s ∧ success = matching_rows weights data k)); [done |].
  intros k i [success fail] st [-> Hk]%lookup_range (-> & ->).
  assert (is_Some (data !! k)) as [row Hrow] by (apply lookup_lt_is_Some; lia).
  assert (is_Some (data !! (k + 1))) as [next Hnext]
    by (apply lookup_lt_is_Some; lia).
  pose proof (has_close_lookup _ _ _ Hwf Hrow) as Lrow.
  pose proof (has_close_lookup _ _ _ Hwf Hnext) as Lnext.
  assert (is_Some (row !! 3)) as [close Hclose]
    by (apply lookup_lt_is_Some; lia).
  assert (is_Some (next !! 3)) as [next_close Hnc]
    by (apply lookup_lt_is_Some; lia).
  wp_bind. eapply wp_index; [done |].
  simpl matching_rows. unfold predicted_right, price_direction.
  rewrite Hrow, Hnext, Hclose, Hnc.
  destruct (evaluate_sigmoid_total weights row) as [Hres|Hres];
    rewrite Hres; (wp_bind; eapply wp_lift; [done |]);
    (wp_bind; eapply wp_index; [done |]);
    (wp_bind; eapply wp_index; [done |]);
    (wp_bind; eapply wp_index; [done |]); simpl;
    (destruct (0 <=? next_close - close)%float eqn:Hge; simpl;
     [rewrite ?(float_sign_exclusive _ Hge) |
      destruct (next_close - close <? 0)%float eqn:Hlt]); simpl;
    wp_ret; (split; [done |]);
    rewrite ?bool_decide_eq_true_2, ?bool_decide_eq_false_2 by done; lia.
Qed.

(** From row [i] on, the loop stops with [IndexError] at the first row pair
    one of whose rows lacks column 3. *)
Lemma count_predictions_short_row weights data n :
  ∀ i acc s,
    1 ≤ n →
    i + n < length data →
    (∃ j row, i ≤ j ≤ i + n ∧ data !! j = Some row ∧ length row < 4) →
    for_in (seq i n) (λ i '(success, fail),
      row ← index data i;
      res ← lift (evaluate_sigmoid weights row);
      next ← index data (i + 1);
      next_close ← index next 3;
      close ← index row 3;
      let prc_diff := (next_close - close)%float in
      if (res =? 1)%Z && (0 <=? prc_diff)%float
         || (res =? -1)%Z && (prc_diff <? 0)%float
      then mret (success + 1, fail)%Z
      else mret (success, fail + 1)%Z) acc s = Raise IndexError.
Proof.
  induction n as [|n IH]; intros i [success fail] s Hn Hlen (j & bad & Hj & Hbad & Lbad);
    [lia |].
  destruct (lookup_lt_is_Some_2 data i) as [row Hrow]; [lia |].
  destruct (lookup_lt_is_Some_2 data (i + 1)) as [next Hnext]; [lia |].
  assert (∀ (l : list float), length l < 4 → l !! 3 = None) as Hshort
    by (intros l Hl; apply lookup_ge_None_2; lia).
  cbn [seq for_in]. unfold mbind, M_bind, index, lift, mret, M_ret, raise in IH |- *.
  rewrite Hrow, Hnext.
  destruct (evaluate_sigmoid_total weights row) as [-> | ->];
    (destruct (next !! 3) as [next_close|] eqn:Hnc; [| done]);
    (destruct (row !! 3) as [close|] eqn:Hc; [| done]);
    (assert (j ≠ i) by (intros ->; rewrite Hrow in Hbad;
       injection Hbad as ->; by rewrite Hshort in Hc));
    (assert (j ≠ i + 1) by (intros ->; rewrite Hnext in Hbad;
       injection Hbad as ->; by rewrite Hshort in Hnc));
    match goal with |- context [if ?b then _ else _] => destruct b end;
    (apply IH; [lia | lia | exists j, bad; split; [lia | done]]).
Qed.

Lemma count_predictions_raises weights data s :
  2 ≤ length data →
  (∃ j row, data !! j = Some row ∧ length row < 4) →
  count_predictions weights data s = Raise IndexError.
Proof.
  intros Hlen (j & bad & Hj & Lbad).
  assert (j < length data) by by eapply lookup_lt_Some.
  unfold count_predictions, range.
  apply count_predictions_short_row; [lia | lia |].
  exists j, bad. split; [lia | done].
Qed.

Lemma bind_raise {A B} (m : M A) (f : A → M B) s e :
  m s = Raise e → (m ≫= f) s = Raise e.
Proof. unfold mbind, M_bind. by intros ->. Qed.

Lemma count_predictions_single weights data s :
  length data ≤ 1 →
  count_predictions weights data s = Ok ((0, 0)%Z, s) ∧ score weights data = 0%Z.
Proof.
  intros Hlen. by destruct data as [|row [|next data]]; [| | simpl in Hlen; lia].
Qed.

(** What a successful evaluation leaves in the store. *)
Lemma evaluate_fitness_run s c o data :
  heap s !! c = Some o →
  has_close data = true ∨ length data ≤ 1 →
  evaluate_fitness c data s
    = Ok (tt, mkState (<[c := evaluated data o]> (heap s))
                (gen s) (stat_txt s) (stdout s)).
Proof.
  intros Hc Hdata.
  assert (∃ fail, count_predictions (weights o) data s
                  = Ok ((score (weights o) data, fail), s)) as [fail Hcount].
  { destruct Hdata as [Hclose | Hlen].
    - destruct (wp_elim _ _ _ (count_predictions_close (weights o) data s Hclose))
        as ([success fail] & s' & Hrun & -> & ->). eauto.
    - destruct (count_predictions_single (weights o) data s Hlen) as [Hrun ->].
      eauto. }
  unfold evaluate_fitness. erewrite bind_ok; [| unfold deref; by rewrite Hc].
  erewrite bind_ok; [| exact Hcount].
  unfold set_fitness. erewrite bind_ok; [| unfold deref; by rewrite Hc].
  reflexivity.
Qed.

(** X1: [evaluate_fitness] needs the closing price, column 3, of every row
    as soon as there are two rows: it returns normally when every row has
    it, or when there are fewer than two rows whatever they hold, and it
    raises [IndexError] when there are at least two rows and some row is
    shorter than 4 columns. *)
Theorem evaluate_fitness_needs_closing_prices s c o data :
  heap s !! c = Some o →
  (has_close data = true ∨ length data ≤ 1 →
   ∃ s', evaluate_fitness c data s = Ok (tt, s')) ∧
  (has_close data = false → 2 ≤ length data →
   evaluate_fitness c data s = Raise IndexError).
Proof.
  intros Hc. split.
  - intros Hdata. eexists. by apply evaluate_fitness_run.
  - intros Hclose Hlen.
    unfold evaluate_fitness. erewrite bind_ok; [| unfold deref; by rewrite Hc].
    apply bind_raise, count_predictions_raises; [done |].
    by apply has_close_false.
Qed.

(** X2: [evaluate_fitness] writes the fitness field of its chromosome and
    nothing else: the genes of that chromosome, every other chromosome, the
    random source and the output are as before.  The new fitness depends on
    the genes and the dataset only, so evaluating again changes nothing. *)
Theorem evaluate_fitness_only_sets_fitness s c o data :
  heap s !! c = Some o →
  has_close data = true →
  ∃ s',
    evaluate_fitness c data s = Ok (tt, s') ∧
    heap s' !! c = Some {| weights := weights o; fitness := score (weights o) data |} ∧
    (∀ c', c' ≠ c → heap s' !! c' = heap s !! c') ∧
    length (heap s') = length (heap s) ∧
    gen s' = gen s ∧ stat_txt s' = stat_txt s ∧ stdout s' = stdout s ∧
    evaluate_fitness c data s' = Ok (tt, s').
Proof.
  intros Hc Hclose.
  assert (c < length (heap s)) as Hlt by by eapply lookup_lt_Some.
  eexists. split; [by apply evaluate_fitness_run; auto |]. cbn [heap gen stat_txt stdout].
  split; [by apply list_lookup_insert_eq |].
  split; [intros c' Hne; by apply list_lookup_insert_ne |].
  split; [apply length_insert |]. do 3 (split; [done |]).
  erewrite evaluate_fitness_run; [| by apply list_lookup_insert_eq | by left].
  cbn [heap gen stat_txt stdout]. by rewrite list_insert_insert_eq.
Qed.

Lemma evaluated_idemp data o : evaluated data (evaluated data o) = evaluated data o.
Proof. done. Qed.

Lemma wp_evaluate_population_exact s population data :
  live_population (heap s) population = true →
  has_close data = true →
  wp (evaluate_population population data) s (λ _ st,
    gen st = gen s ∧ stat_txt st = stat_txt s ∧ stdout st = stdout s ∧
    length (heap st) = length (heap s) ∧
    ∀ (c : loc) o, heap s !! c = Some o →
           heap st !! c
             = Some (if bool_decide (c ∈ population) then evaluated data o else o)).
Proof.
  intros Hlive Hclose. rewrite live_population_spec in Hlive.
  unfold evaluate_population. eapply wp_mono.
  - apply (wp_for_in (λ (k : nat) (_ : unit) st,
      gen st = gen s ∧ stat_txt st = stat_txt s ∧ stdout st = stdout s ∧
      length (heap st) = length (heap s) ∧
      ∀ (c : loc) o, heap s !! c = Some o →
             heap st !! c
               = Some (if bool_decide (c ∈ take k population)
                       then evaluated data o else o))).
    { do 4 (split; [done |]). intros c o Hc.
      rewrite take_0, bool_decide_eq_false_2; [done | apply not_elem_of_nil]. }
    intros k x [] st Hx (Hgen & Hstat & Hout & Hlen & Hheap).
    unfold loc in *.
    destruct (Hlive x) as [o Ho]; [by eapply list_elem_of_lookup_2 |].
    pose proof (Hheap x o Ho) as Hox.
    set (ox := if bool_decide (x ∈ take k population)
               then evaluated data o else o) in Hox.
    assert (evaluated data ox = evaluated data o) as Hev
      by (subst ox; by destruct (bool_decide _)).
    eapply wp_intro; [apply (evaluate_fitness_run st x ox data); auto |].
    cbn [heap gen stat_txt stdout]. do 3 (split; [done |]).
    split; [by rewrite length_insert |].
    intros c o' Hc. rewrite (take_S_r _ _ _ Hx).
    destruct (decide (c = x)) as [Heq | Hne].
    + subst c. rewrite list_lookup_insert_eq by by eapply lookup_lt_Some.
      rewrite bool_decide_eq_true_2 by (apply elem_of_app; right; by apply list_elem_of_singleton).
      rewrite Hev. congruence.
    + rewrite list_lookup_insert_ne by done. rewrite (Hheap c o' Hc).
      f_equal.
      rewrite (bool_decide_ext (c ∈ take k population ++ [x])
                 (c ∈ take k population)); [done |].
      rewrite elem_of_app, list_elem_of_singleton. tauto.
  - intros [] st (Hgen & Hstat & Hout & Hlen & Hheap).
    do 4 (split; [done |]). intros c o Hc. rewrite (Hheap c o Hc).
    by rewrite firstn_all.
Qed.

(** X3: [evaluate_population] gives every member of the population its score
    on the dataset as fitness, also a member that occurs twice, and leaves
    the genes, the chromosomes outside the population, the random source and
    the output as they were. *)
Theorem evaluate_population_scores_every_member s population data :
  live_population (heap s) population = true →
  has_close data = true →
  ∃ s',
    evaluate_population population data s = Ok (tt, s') ∧
    length (heap s') = length (heap s) ∧
    (∀ (c : loc) o, heap s !! c = Some o →
       heap s' !! c
         = Some (if bool_decide (c ∈ population)
                 then {| weights := weights o; fitness := score (weights o) data |}
                 else o)) ∧
    gen s' = gen s ∧ stat_txt s' = stat_txt s ∧ stdout s' = stdout s.
Proof.
  intros Hlive Hclose.
  destruct (wp_elim _ _ _ (wp_evaluate_population_exact s population data Hlive Hclose))
    as ([] & s' & Hrun & Hgen & Hstat & Hout & Hlen & Hheap).
  exists s'. auto 10.
Qed.

(** ** Population creation *)

Lemma wp_set_random_weights_last s h o :
  heap s = h ++ [o] →
  length (weights o) = GENES →
  wp (set_random_weights (length h)) s (λ _ st,
    ∃ o', heap st = h ++ [o'] ∧ length (weights o') = GENES ∧
          fitness o' = fitness o ∧
          stat_txt st = stat_txt s ∧ stdout st = stdout s).
Proof.
  intros Hs Lo. unfold set_random_weights. eapply wp_mono.
  - apply (wp_for_in (λ (k : nat) (_ : unit) st,
      ∃ o', heap st = h ++ [o'] ∧ length (weights o') = GENES ∧
            fitness o' = fitness o ∧
            stat_txt st = stat_txt s ∧ stdout st = stdout s)).
    { exists o. auto. }
    intros k i [] st [-> Hk]%lookup_range (o' & Hheap & Lo' & Fo' & Hstat & Hout).
    wp_bind. apply wp_random_uniform.
    eapply wp_set_weight; cbn [heap].
    { rewrite Hheap. by rewrite lookup_app_r, Nat.sub_diag. }
    { rewrite Lo'. lia. }
    eexists. cbn [heap stat_txt stdout].
    rewrite Hheap, insert_app_r_alt, Nat.sub_diag by done. cbn [insert list_insert].
    split; [done |]. cbn [weights fitness]. by rewrite length_insert.
  - intros [] st H. exact H.
Qed.

Lemma wp_create_population_exact s size :
  wp (create_population size) s (λ r st,
    r = seq (length (heap s)) (Z.to_nat size) ∧
    ∃ kids, heap st = heap s ++ kids ∧ length kids = Z.to_nat size ∧
            Forall (λ o, length (weights o) = GENES ∧ fitness o = 0%Z) kids ∧
            stat_txt st = stat_txt s ∧ stdout st = stdout s).
Proof.
  unfold create_population. eapply wp_mono.
  - apply (wp_for_in (λ k r st,
      r = seq (length (heap s)) k ∧
      ∃ kids, heap st = heap s ++ kids ∧ length kids = k ∧
              Forall (λ o, length (weights o) = GENES ∧ fitness o = 0%Z) kids ∧
              stat_txt st = stat_txt s ∧ stdout st = stdout s)).
    { split; [done |]. exists []. by rewrite app_nil_r. }
    intros k i r st _ (-> & kids & Hheap & Hlen & Hkids & Hstat & Hout).
    wp_bind. apply wp_new_Chromosome.
    wp_bind. eapply wp_mono.
    { by eapply (wp_set_random_weights_last _ (heap st) Chromosome_init). }
    intros [] st' (o' & Hheap' & Lo' & Fo' & Hstat' & Hout').
    cbn in Hstat', Hout'. wp_ret. split.
    + rewrite seq_S. do 2 f_equal. rewrite Hheap, length_app. lia.
    + exists (kids ++ [o']). rewrite Hheap', Hheap, app_assoc, length_app.
      split; [done |]. split; [simpl; lia |].
      split; [| split; congruence].
      apply Forall_app. split; [done |]. by repeat constructor.
  - intros r st. by rewrite length_range.
Qed.

(** X4: [create_population(size)] returns [max(size, 0)] new chromosomes,
    pairwise distinct and distinct from every chromosome that existed
    before, each with 7 genes and fitness 0; it changes no existing
    chromosome and writes no output.  In particular a size of 0 or less
    gives the empty population. *)
Theorem create_population_allocates_fresh s size :
  ∃ population kids s',
    create_population size s = Ok (population, s') ∧
    population = seq (length (heap s)) (Z.to_nat size) ∧
    length population = Z.to_nat size ∧
    NoDup population ∧
    (∀ c, c ∈ population → heap s !! c = None) ∧
    heap s' = heap s ++ kids ∧
    length kids = Z.to_nat size ∧
    Forall (λ o, length (weights o) = GENES ∧ fitness o = 0%Z) kids ∧
    stat_txt s' = stat_txt s ∧ stdout s' = stdout s ∧
    ((size ≤ 0)%Z → population = []).
Proof.
  destruct (wp_elim _ _ _ (wp_create_population_exact s size))
    as (r & s' & Hrun & -> & kids & Hheap & Hlen & Hkids & Hstat & Hout).
  exists (seq (length (heap s)) (Z.to_nat size)), kids, s'.
  split; [done |]. split; [done |]. split; [apply length_seq |].
  split; [apply NoDup_seq |]. split.
  { intros c [Hc _]%elem_of_seq. by apply lookup_ge_None_2. }
  do 5 (split; [done |]).
  intros Hsize. by replace (Z.to_nat size) with 0 by lia.
Qed.

(** ** Variation keeps the individuals *)

Lemma wp_crossover_unevaluated s c1 c2 o1 o2 (Q : list loc → state → Prop) :
  heap s !! c1 = Some o1 →
  heap s !! c2 = Some o2 →
  length (weights o1) = GENES →
  length (weights o2) = GENES →
  (∀ oA oB s',
     heap s' = heap s ++ [oA; oB] →
     stat_txt s' = stat_txt s → stdout s' = stdout s →
     length (weights oA) = GENES ∧ fitness oA = 0%Z →
     length (weights oB) = GENES ∧ fitness oB = 0%Z →
     Q [length (heap s); S (length (heap s))] s') →
  wp (crossover c1 c2) s Q.
Proof.
  intros H1 H2 L1 L2 HQ.
  destruct (crossover_run s c1 c2 o1 o2 H1 H2 L1 L2)
    as (st & Hrun & oA & oB & -> & FA & FB & LA & LB & _).
  eapply wp_intro; [done |]. by eapply HQ.
Qed.

Lemma wp_add_children_unevaluated s population :
  valid_population (heap s) population = true →
  wp (add_children population) s (λ r st,
    r = (shuffle population (gen s)).1
        ++ seq (length (heap s)) (2 * (length population / 2)) ∧
    ∃ kids, heap st = heap s ++ kids ∧
            length kids = 2 * (length population / 2) ∧
            Forall (λ o, length (weights o) = GENES ∧ fitness o = 0%Z) kids ∧
            stat_txt st = stat_txt s ∧ stdout st = stdout s).
Proof.
  intros Hvalid.
  set (shuffled := (shuffle population (gen s)).1).
  set (mid := length population / 2).
  assert (shuffled ≡ₚ population) as Hperm by apply shuffle_perm.
  assert (length shuffled = length population) as Hlen by by rewrite Hperm.
  unfold add_children. wp_bind. apply wp_random_shuffle. fold shuffled.
  rewrite Hlen, half_nat. fold mid.
  assert (mid + mid ≤ length shuffled) as Hmid.
  { rewrite Hlen. unfold mid.
    pose proof (Nat.div_mod_eq (length population) 2). lia. }
  eapply wp_mono.
  - apply (wp_for_in (λ k r st,
      r = shuffled ++ seq (length (heap s)) (2 * k) ∧
      ∃ kids, heap st = heap s ++ kids ∧ length kids = 2 * k ∧
              Forall (λ o, length (weights o) = GENES ∧ fitness o = 0%Z) kids ∧
              stat_txt st = stat_txt s ∧ stdout st = stdout s)).
    { split; [by rewrite Nat.mul_0_r, app_nil_r |].
      exists []. by rewrite app_nil_r. }
    intros k i r st [-> Hk]%lookup_range
      (-> & kids & Hheap & Hlk & Hkids & Hstat & Hout).
    assert (is_Some (take mid shuffled !! k)) as [c1 Hc1].
    { apply lookup_lt_is_Some. rewrite length_take. lia. }
    assert (is_Some (drop mid shuffled !! k)) as [c2 Hc2].
    { apply lookup_lt_is_Some. rewrite length_drop. lia. }
    assert (∀ c, c ∈ shuffled →
              ∃ o, heap st !! c = Some o ∧ length (weights o) = GENES)
      as Hlive.
    { intros c Hc. rewrite Hperm in Hc.
      destruct (proj1 (valid_population_spec _ _) Hvalid c Hc) as (o & Ho & Lo).
      exists o. split; [| done]. rewrite Hheap. by apply lookup_app_l_Some. }
    destruct (Hlive c1) as (o1 & H1 & L1).
    { eapply list_elem_of_lookup_2, lookup_take_Some, Hc1. }
    destruct (Hlive c2) as (o2 & H2 & L2).
    { rewrite lookup_drop in Hc2. by eapply list_elem_of_lookup_2. }
    wp_bind. eapply wp_index; [done |].
    wp_bind. eapply wp_index; [done |].
    wp_bind. eapply wp_crossover_unevaluated; [done .. |].
    intros oA oB s' Hheap' Hstat' Hout' LA LB. wp_ret. split.
    + rewrite Hheap, length_app, Hlk, <- app_assoc. f_equal.
      replace (2 * S k) with (2 * k + 2) by lia.
      rewrite seq_app. f_equal.
    + exists (kids ++ [oA; oB]).
      split; [by rewrite Hheap', Hheap, app_assoc |].
      split; [rewrite length_app; simpl; lia |].
      split; [| split; congruence].
      apply Forall_app. split; [done |].
      constructor; [done | constructor; [done | constructor]].
  - intros r st. by rewrite length_range, Nat2Z.id.
Qed.

(** X5: [add_children] keeps every individual of the population, in the
    shuffled order, and appends only chromosomes that did not exist before,
    each with 7 genes and fitness 0.  No existing chromosome is modified,
    nothing is written to the output, and a population without repeated
    individuals stays without repeated individuals. *)
Theorem add_children_keeps_the_individuals s population :
  valid_population (heap s) population = true →
  ∃ shuffled children kids s',
    add_children population s = Ok (shuffled ++ children, s') ∧
    shuffled ≡ₚ population ∧
    heap s' = heap s ++ kids ∧
    (∀ (c : loc) o, heap s !! c = Some o → heap s' !! c = Some o) ∧
    (∀ c, c ∈ children →
       heap s !! c = None ∧
       ∃ o, heap s' !! c = Some o ∧ length (weights o) = GENES ∧
            fitness o = 0%Z) ∧
    (NoDup population → NoDup (shuffled ++ children)) ∧
    stat_txt s' = stat_txt s ∧ stdout s' = stdout s.
Proof.
  intros Hvalid.
  destruct (wp_elim _ _ _ (wp_add_children_unevaluated s population Hvalid))
    as (r & s' & Hrun & -> & kids & Hheap & Hlen & Hkids & Hstat & Hout).
  pose proof (shuffle_perm population (gen s)) as Hperm.
  exists (shuffle population (gen s)).1,
         (seq (length (heap s)) (2 * (length population / 2))), kids, s'.
  split; [done |]. split; [done |]. split; [done |]. split.
  { intros c o Hc. rewrite Hheap. by apply lookup_app_l_Some. }
  split.
  { intros c [Hc1 Hc2]%elem_of_seq. split; [by apply lookup_ge_None_2 |].
    destruct (lookup_lt_is_Some_2 kids (c - length (heap s))) as [o Ho]; [lia |].
    exists o. rewrite Hheap, lookup_app_r by done. split; [done |].
    by apply (proj1 (Forall_lookup _ _) Hkids _ _ Ho). }
  split; [| done].
  intros Hnodup. apply NoDup_app. split; [by rewrite Hperm |].
  split; [| apply NoDup_seq].
  intros c Hc [Hge _]%elem_of_seq. rewrite Hperm in Hc.
  destruct (proj1 (valid_population_spec _ _) Hvalid c Hc) as (o & Ho & _).
  apply lookup_lt_Some in Ho. lia.
Qed.

(** ** Average fitness and the order of the population *)

Lemma total_fitness_perm h l1 l2 :
  l1 ≡ₚ l2 → total_fitness h l1 = total_fitness h l2.
Proof. induction 1; simpl; lia. Qed.

(** X6: [avg_fitness] does not depend on the order of the population: two
    arrangements of the same individuals give the same result, the same
    mean or the same exception. *)
Theorem avg_fitness_ignores_order s population1 population2 :
  live_population (heap s) population1 = true →
  population1 ≡ₚ population2 →
  avg_fitness population1 s = avg_fitness population2 s.
Proof.
  intros Hlive Hperm.
  assert (live_population (heap s) population2 = true) as Hlive2.
  { rewrite live_population_spec in Hlive |- *. intros c Hc. apply Hlive.
    by rewrite Hperm. }
  rewrite (avg_fitness_run s population1 Hlive).
  rewrite (avg_fitness_run s population2 Hlive2).
  cbv zeta.
  by rewrite (total_fitness_perm _ _ _ Hperm), (Permutation_length Hperm).
Qed.

(** ** The classifier *)

(** X7: [evaluate_sigmoid] never raises and returns 1 or -1; it reads the
    weights and the values up to the length of the shorter list only. *)
Theorem evaluate_sigmoid_uses_common_prefix weights values :
  let n := length weights `min` length values in
  (evaluate_sigmoid weights values = Ok 1%Z ∨
   evaluate_sigmoid weights values = Ok (-1)%Z) ∧
  evaluate_sigmoid weights values
    = evaluate_sigmoid (take n weights) (take n values).
Proof.
  intros n. split; [apply evaluate_sigmoid_total |].
  unfold evaluate_sigmoid.
  by rewrite (zip_with_take_both' _ n n weights values) by done.
Qed.

(** ** Selection without random picks *)

Lemma first_max_decorate_key h l y :
  first_max (decorate h l) = Some y → y.1 = fitness_of h y.2.
Proof.
  intros (i & Hi & _)%first_max_spec. unfold decorate in Hi.
  rewrite list_lookup_fmap in Hi. destruct (l !! i); [| done].
  by injection Hi as <-.
Qed.

Lemma first_max_is_Some l : l ≠ [] → is_Some (first_max l).
Proof.
  destruct l as [|a l]; [done |]. intros _. simpl.
  destruct (first_max l); [destruct (_ <=? _)%Z |]; eauto.
Qed.

(** The left-to-right scan finds the first item of the largest key. *)
Lemma scan_loc_first_max h l :
  ∀ b, scan_loc h b l =
       match first_max (decorate h l) with
       | None => b
       | Some y => if (y.1 >? fitness_of h b)%Z then y.2 else b
       end.
Proof.
  induction l as [|a l IH]; intros b; [done |].
  unfold scan_loc in *. cbn [fold_left]. rewrite IH. cbn [decorate fmap list_fmap first_max].
  fold (decorate h l).
  destruct (first_max (decorate h l)) as [y|] eqn:Hy; cbn [fst snd].
  - destruct (Z.leb_spec y.1 (fitness_of h a));
      destruct (Z.gtb_spec (fitness_of h a) (fitness_of h b)); cbn [fst snd];
      repeat match goal with
      | |- context [(?x >? ?z)%Z] => destruct (Z.gtb_spec x z)
      end; done || lia.
  - by destruct (_ >? _)%Z.
Qed.

Lemma scan_loc_head h c0 rest y :
  first_max (decorate h (c0 :: rest)) = Some y →
  scan_loc h c0 (c0 :: rest) = y.2.
Proof.
  intros Hy. rewrite scan_loc_first_max, Hy.
  cbn [decorate fmap list_fmap first_max] in Hy. fold (decorate h rest) in Hy.
  destruct (first_max (decorate h rest)) as [m|]; cbn [fst snd] in Hy.
  - destruct (Z.leb_spec m.1 (fitness_of h c0)); injection Hy as <-;
      cbn [fst snd];
      match goal with |- context [(?x >? ?z)%Z] => destruct (Z.gtb_spec x z) end;
      done || lia.
  - injection Hy as <-. cbn [fst snd].
    match goal with |- context [(?x >? ?z)%Z] => destruct (Z.gtb_spec x z) end;
      done || lia.
Qed.

(** Taking the first item of the largest key out and sorting the rest is
    sorting the whole list: selection sort and the stable sort agree. *)
Lemma sort_desc_first_max h pool y :
  first_max (decorate h pool) = Some y →
  ∃ pool', list_remove y.2 pool = Some pool' ∧
           sort_desc (decorate h pool) = y :: sort_desc (decorate h pool').
Proof.
  revert y. induction pool as [|a pool IH]; intros y Hy; [done |].
  cbn [decorate fmap list_fmap first_max] in Hy. fold (decorate h pool) in Hy.
  cbn [decorate fmap list_fmap sort_desc foldr]. fold (decorate h pool).
  fold (sort_desc (decorate h pool)).
  destruct (first_max (decorate h pool)) as [m|] eqn:Hm; cbn [fst snd] in Hy.
  - destruct (IH m eq_refl) as (pool' & Hrm & Hsort).
    pose proof (first_max_decorate_key _ _ _ Hm) as Hkey.
    destruct (Z.leb_spec m.1 (fitness_of h a)) as [Hle | Hlt];
      injection Hy as <-; cbn [list_remove snd].
    + exists pool. rewrite decide_True by done. split; [done |].
      rewrite Hsort. cbn [insert_desc fst].
      by rewrite (proj2 (Z.leb_le _ _) Hle), <- Hsort.
    + assert (a ≠ m.2) as Hne by (intros ->; lia).
      rewrite decide_False by done. rewrite Hrm. exists (a :: pool').
      split; [done |]. rewrite Hsort. cbn [insert_desc fst].
      by rewrite (proj2 (Z.leb_gt _ _) Hlt).
  - injection Hy as <-. destruct pool as [|b pool].
    + exists []. cbn [list_remove snd]. by rewrite decide_True.
    + cbn in Hm. destruct (first_max _); [destruct (_ <=? _)%Z |]; done.
Qed.

Lemma scan_loc_snoc h b l x :
  scan_loc h b (l ++ [x])
  = if (fitness_of h x >? fitness_of h (scan_loc h b l))%Z
    then x else scan_loc h b l.
Proof. unfold scan_loc. by rewrite fold_left_app. Qed.

Lemma wp_scan_best_exact population best s :
  (∀ c, c ∈ population → is_Some (heap s !! c)) →
  is_Some (heap s !! best) →
  wp (scan_best population best) s (λ r st,
    st = s ∧ r = scan_loc (heap s) best population).
Proof.
  intros Hlive Hbest. unfold scan_best. eapply wp_mono.
  - apply (wp_for_in (λ k r st,
      st = s ∧ r = scan_loc (heap s) best (take k population) ∧
      is_Some (heap s !! r))); [by auto |].
    intros k x r st Hx (-> & -> & [ob Hob]).
    assert (x ∈ population) as Hxin by by eapply list_elem_of_lookup_2.
    destruct (Hlive x Hxin) as [ox Hox].
    wp_bind. eapply wp_deref; [done |].
    wp_bind. eapply wp_deref; [done |].
    rewrite (take_S_r _ _ _ Hx), scan_loc_snoc.
    unfold fitness_of at 1 2. rewrite Hox, Hob.
    destruct (fitness ox >? fitness ob)%Z; wp_ret; eauto.
  - intros r st (-> & -> & _). by rewrite firstn_all.
Qed.

Lemma drop_cons_inv {A} (l : list A) k x l' :
  drop k l = x :: l' → l !! k = Some x ∧ drop (S k) l = l'.
Proof.
  intros Hdrop.
  assert (l !! k = Some x) as Hk.
  { rewrite <- (Nat.add_0_r k), <- lookup_drop, Hdrop. done. }
  split; [done |]. rewrite (drop_S _ _ _ Hk) in Hdrop. by injection Hdrop.
Qed.

Lemma wp_select_fittest_elitist s population :
  live_population (heap s) population = true →
  no_random_pick (gen s) (length population / 2) →
  wp (select_fittest population) s (λ '(fittest, rest) st,
    same_store s st ∧
    gen st = rolls_rng (gen s) (length population / 2) ∧
    fittest = take (length population / 2)
                (sort_desc (decorate (heap s) population)).*2).
Proof.
  intros Hlive Hrolls. rewrite live_population_spec in Hlive.
  set (sorted := (sort_desc (decorate (heap s) population)).*2).
  assert (length sorted = length population) as Hsorted.
  { unfold sorted. rewrite length_fmap, sort_desc_perm. unfold decorate.
    by rewrite length_fmap. }
  unfold select_fittest. eapply wp_mono.
  - apply (wp_for_in (λ k '(fittest, pool) st,
      same_store s st ∧ gen st = rolls_rng (gen s) k ∧
      fittest = take k sorted ∧
      (sort_desc (decorate (heap s) pool)).*2 = drop k sorted ∧
      (∀ c, c ∈ pool → c ∈ population))); [done |].
    intros k c [fittest pool] st [-> Hk]%lookup_range
      ((Hheap & Hstat & Hout) & Hgen & -> & Hpool & Hsub).
    assert (k < length population / 2) as Hk'.
    { apply Nat2Z.inj_lt. rewrite Nat2Z.inj_div. exact Hk. }
    pose proof (Nat.div_mod_eq (length population) 2) as Hdiv.
    assert (pool ≠ []) as Hne.
    { intros ->. apply (f_equal length) in Hpool.
      rewrite length_drop in Hpool. simpl in Hpool. lia. }
    destruct (first_max_is_Some (decorate (heap s) pool)) as [y Hy].
    { destruct pool; [done | discriminate]. }
    destruct (sort_desc_first_max _ _ _ Hy) as (pool' & Hrm & Hsort).
    rewrite Hsort in Hpool. cbn [fmap list_fmap] in Hpool.
    apply eq_sym, drop_cons_inv in Hpool as [Hbest Hrest].
    destruct pool as [|c0 pool0]; [done |].
    pose proof (scan_loc_head _ _ _ _ Hy) as Hscan.
    assert (y.2 ∈ c0 :: pool0) as Hyin.
    { destruct (first_max_spec _ _ Hy) as (i & Hi & _).
      unfold decorate in Hi. rewrite list_lookup_fmap in Hi.
      destruct ((c0 :: pool0) !! i) as [c'|] eqn:Hci; [| done].
      injection Hi as <-. by eapply list_elem_of_lookup_2. }
    destruct (list_remove_member _ _ Hyin) as (pool'' & Hrm' & Hperm).
    rewrite Hrm in Hrm'. injection Hrm' as <-.
    wp_bind. apply wp_random_uniform. rewrite Hgen, (Hrolls k Hk').
    wp_bind. eapply wp_index; [done |].
    wp_bind. eapply wp_mono; [apply wp_scan_best_exact |].
    { intros c' Hc'. cbn [heap]. rewrite Hheap. auto. }
    { cbn [heap]. rewrite Hheap. apply Hlive, Hsub. by left. }
    intros best st' [-> ->]. cbn [heap]. rewrite Hheap, Hscan.
    wp_bind. unfold remove. rewrite Hrm. wp_ret. wp_ret.
    split; [done |]. split; [done |].
    split; [by rewrite (take_S_r _ _ _ Hbest) |]. split; [done |].
    intros c' Hc'. apply Hsub. rewrite Hperm. by right.
  - intros [fittest rest] st. rewrite length_range.
    change 2%Z with (Z.of_nat 2). rewrite <- Nat2Z.inj_div, Nat2Z.id.
    intros (? & ? & ? & _). done.
Qed.

(** X8: when none of the rolls of a call falls at or below the random
    selection probability, [select_fittest] returns the [n / 2] fittest
    individuals in decreasing order of fitness, ties in the order of the
    input: the first half of the stably sorted population, which is what the
    alternative kept in the comment at the end of the function returns. *)
Theorem select_fittest_without_random_pick_is_top_half s population :
  live_population (heap s) population = true →
  no_random_pick (gen s) (length population / 2) →
  ∃ rest s',
    select_fittest population s
      = Ok ((take (length population / 2)
               (sort_desc (decorate (heap s) population)).*2, rest), s') ∧
    heap s' = heap s ∧
    gen s' = rolls_rng (gen s) (length population / 2).
Proof.
  intros Hlive Hrolls.
  destruct (wp_elim _ _ _ (wp_select_fittest_elitist s population Hlive Hrolls))
    as ([fittest rest] & s' & Hrun & (Hheap & _) & Hgen & ->).
  eauto.
Qed.

(** ** The evolution loop from any initial size *)

Lemma final_size_step N k :
  let n := final_size N k in (n + 2 * (n / 2)) / 2 = final_size N (S k).
Proof.
  pose proof (Nat.div_mod_eq N 2) as HN.
  pose proof (Nat.mod_upper_bound N 2) as Hmod.
  assert (2 * (N / 2) / 2 = N / 2) as Heven
    by (rewrite Nat.mul_comm; by apply Nat.div_mul).
  destruct k as [|k]; unfold final_size; cbv zeta.
  - replace (N + 2 * (N / 2)) with (N `mod` 2 + (2 * (N / 2)) * 2) by lia.
    rewrite Nat.div_add by done. by rewrite (Nat.div_small (N `mod` 2)) by lia.
  - rewrite Heven. replace (2 * (N / 2) + 2 * (N / 2)) with (2 * (N / 2) * 2) by lia.
    by rewrite Nat.div_mul.
Qed.

Lemma valid_population_seq h kids n :
  Forall (λ o, length (weights o) = GENES ∧ fitness o = 0%Z) kids →
  n ≤ length kids →
  valid_population (h ++ kids) (seq (length h) n) = true.
Proof.
  intros Hkids Hn. apply valid_population_allocated; [| done].
  eapply Forall_impl; [exact Hkids |]. by intros o [? _].
Qed.

Lemma final_size_half N k : final_size N k / 2 = N / 2.
Proof.
  destruct k; [done |]. unfold final_size.
  rewrite Nat.mul_comm. by apply Nat.div_mul.
Qed.

Lemma final_size_le N k : final_size N k ≤ N.
Proof.
  destruct k; [done |]. unfold final_size.
  pose proof (Nat.div_mod_eq N 2). lia.
Qed.

Lemma FLOAT_OVERFLOW_pos : (1 < FLOAT_OVERFLOW)%Z.
Proof. done. Qed.

Lemma score_bounds weights data :
  (0 ≤ score weights data ≤ Z.of_nat (length data))%Z.
Proof.
  unfold score.
  pose proof (matching_rows_bounds weights data
                (Z.to_nat (Z.of_nat (length data) - 1))).
  lia.
Qed.

(** The sum of fitness values that lie between 0 and [B]. *)
Lemma total_fitness_bounds h population B :
  (∀ c, c ∈ population → (0 ≤ fitness_of h c ≤ B)%Z) →
  (0 ≤ total_fitness h population ≤ Z.of_nat (length population) * B)%Z.
Proof.
  induction population as [|c l IH]; intros Hall; [simpl; lia |].
  cbn [total_fitness length]. rewrite Nat2Z.inj_succ.
  pose proof (Hall c ltac:(by left)).
  assert (∀ c', c' ∈ l → (0 ≤ fitness_of h c' ≤ B)%Z) as Hl
    by (intros c' Hc'; apply Hall; by right).
  specialize (IH Hl). lia.
Qed.

(** New chromosomes add nothing to a sum of fitness values. *)
Lemma total_fitness_unevaluated h kids n :
  Forall (λ o, length (weights o) = GENES ∧ fitness o = 0%Z) kids →
  total_fitness (h ++ kids) (seq (length h) n) = 0%Z.
Proof.
  intros Hkids.
  pose proof (total_fitness_bounds (h ++ kids) (seq (length h) n) 0) as Hb.
  cut (0 ≤ total_fitness (h ++ kids) (seq (length h) n) ≤ 0)%Z; [lia |].
  rewrite Z.mul_0_r in Hb. apply Hb.
  intros c [Hc _]%elem_of_seq. unfold fitness_of.
  rewrite lookup_app_r by done.
  destruct (kids !! (c - length h)) as [o|] eqn:Ho; [| done].
  destruct (proj1 (Forall_lookup _ _) Hkids _ _ Ho) as [_ ->]. done.
Qed.

(** A population of evaluated individuals has an average: its size and the
    sum of its scores convert to floats when [N] times the number of rows,
    plus one, does. *)
Lemma evaluated_population_converts h data population (N : nat) :
  length population ≤ N →
  (Z.of_nat N * Z.of_nat (S (length data)) < FLOAT_OVERFLOW)%Z →
  (∀ c, c ∈ population → up_to_date h data c) →
  (Z.of_nat (length population) < FLOAT_OVERFLOW)%Z ∧
  (Z.abs (total_fitness h population) < FLOAT_OVERFLOW)%Z.
Proof.
  intros Hlen Hbound Hev.
  pose proof (total_fitness_bounds h population (Z.of_nat (length data))) as Hb.
  assert (0 ≤ total_fitness h population
            ≤ Z.of_nat (length population) * Z.of_nat (length data))%Z as Hsum.
  { apply Hb. intros c Hc. destruct (Hev c Hc) as (o & Ho & Fo).
    unfold fitness_of. rewrite Ho, Fo. apply score_bounds. }
  split; [nia |]. rewrite Z.abs_eq by lia. nia.
Qed.

Lemma wp_optimize s (N generations : nat) data statistics :
  has_close data = true →
  (statistics = true →
   (if generations is O then 1 else 2) ≤ N ∧
   (Z.of_nat N * Z.of_nat (S (length data)) < FLOAT_OVERFLOW)%Z) →
  wp (optimize (Z.of_nat N) (Z.of_nat generations) data statistics) s
    (optimized s N generations data statistics).
Proof.
  intros Hclose Hstats.
  assert (statistics = true → 0 < N) as Hpos.
  { intros Hs. destruct (Hstats Hs) as [HN _]. destruct generations; lia. }
  unfold optimize. wp_bind.
  set (s0 := mkState (heap s) (gen s)
               (if statistics then [] else stat_txt s) (stdout s)).
  apply (wp_mono _ _ (λ _ st, st = s0)).
  { subst s0. destruct statistics; [done | by destruct s]. }
  intros [] ? ->.
  wp_bind. eapply wp_mono; [apply wp_create_population_exact |].
  intros population st (-> & kids & Hheap & Hlen & Hkids & Hstat & Hout).
  rewrite Nat2Z.id in Hlen |- *. cbn [heap stat_txt stdout s0] in Hheap, Hstat, Hout |- *.
  assert (valid_population (heap st) (seq (length (heap s)) N) = true) as Hvalid.
  { rewrite Hheap. apply valid_population_seq; [done | lia]. }
  wp_bind. eapply wp_mono.
  { apply wp_record_stats; [done |]. intros Hs.
    destruct (Hstats Hs) as [_ Hbound]. specialize (Hpos Hs).
    rewrite Hheap, total_fitness_unevaluated, length_seq by done.
    pose proof FLOAT_OVERFLOW_pos. split; [| split; [nia | simpl; lia]].
    intros Hnil. apply (f_equal length) in Hnil. rewrite length_seq in Hnil.
    simpl in Hnil. lia. }
  intros [] st1 (Hheap1 & Hout1 & Hstat1).
  eapply wp_mono.
  - apply (wp_for_in (λ k population st,
      optimized s N k data statistics population st)).
    { split; [apply length_seq |]. split; [by rewrite Hheap1 |].
      split; [apply NoDup_seq |].
      split; [by intros c [? _]%elem_of_seq |].
      split; [rewrite Hheap1, Hheap, length_app; lia |].
      split; [intros c o Hc; rewrite Hheap1, Hheap; by apply lookup_app_l_Some |].
      split; [lia |].
      split; [simpl; rewrite app_nil_r; congruence |].
      destruct statistics; [rewrite Hstat1, Hstat; done | congruence]. }
    intros k i pop stk [-> Hk]%lookup_range
      (Hl & Hv & Hnd & Hnew & Hbase & Hold & _ & Ho & Hs).
    (* variation *)
    wp_bind. eapply wp_mono; [by apply wp_add_children_unevaluated |].
    intros pop1 sta (-> & kids1 & Hha & Hlk & Hkids1 & Hsa & Hoa).
    pose proof (shuffle_perm pop (gen stk)) as Hperm.
    set (sh := (shuffle pop (gen stk)).1) in *.
    set (pop1 := sh ++ seq (length (heap stk)) (2 * (length pop / 2))).
    assert (valid_population (heap sta) pop1 = true) as Hv1.
    { rewrite Hha. apply valid_population_app. split.
      - eapply valid_population_mono; [intros c; apply valid_chromosome_app |].
        by eapply valid_population_perm.
      - apply valid_population_seq; [done | lia]. }
    assert (∀ c, c ∈ pop1 → length (heap s) ≤ c) as Hnew1.
    { intros c [Hc | [Hc _]%elem_of_seq]%elem_of_app; [| lia].
      apply Hnew. by rewrite <- Hperm. }
    assert (NoDup pop1) as Hnd1.
    { apply NoDup_app. split; [by rewrite Hperm |]. split; [| apply NoDup_seq].
      intros c Hc [Hge _]%elem_of_seq. rewrite Hperm in Hc.
      destruct (proj1 (valid_population_spec _ _) Hv c Hc) as (o & Hco & _).
      apply lookup_lt_Some in Hco. lia. }
    assert (length pop1 = length pop + 2 * (length pop / 2)) as Hl1.
    { unfold pop1. by rewrite length_app, length_seq, Hperm. }
    (* evaluation *)
    wp_bind. eapply wp_mono.
    { apply wp_evaluate_population_exact; [by apply valid_population_live | done]. }
    intros [] stb (_ & Hsb & Hob & Hlb & Hhb).
    assert (∀ c, c ∈ pop1 →
              ∃ o, heap stb !! c = Some o ∧ length (weights o) = GENES ∧
                   fitness o = score (weights o) data) as Hev.
    { intros c Hc.
      destruct (proj1 (valid_population_spec _ _) Hv1 c Hc) as (o & Hco & Lo).
      exists (evaluated data o). rewrite (Hhb c o Hco).
      by rewrite bool_decide_eq_true_2. }
    (* selection *)
    wp_bind. eapply wp_mono.
    { apply wp_select_fittest, live_population_spec.
      intros c Hc. destruct (Hev c Hc) as (o & -> & _). eauto. }
    intros [pop2 rest] stc ((Hhc & Hsc & Hoc) & Hl2 & Hperm2).
    assert (∀ c, c ∈ pop2 → c ∈ pop1) as Hsub.
    { intros c Hc. rewrite <- Hperm2. apply elem_of_app. by left. }
    assert (valid_population (heap stc) pop2 = true) as Hv2.
    { apply valid_population_spec. intros c Hc. rewrite Hhc.
      destruct (Hev c (Hsub c Hc)) as (o & ? & ? & _). eauto. }
    assert (length pop2 = final_size N (S k)) as Hl2'.
    { rewrite Hl2, Hl1, Hl. apply final_size_step. }
    wp_bind. eapply wp_mono.
    { apply wp_record_stats; [done |]. intros Hst.
      destruct (Hstats Hst) as [HN2 Hbound].
      split.
      - intros Hnil. rewrite Hnil in Hl2'. unfold final_size in Hl2'.
        cbn [length] in Hl2'.
        assert (2 ≤ N) by (destruct generations; [lia | exact HN2]).
        pose proof (Nat.div_mod_eq N 2). pose proof (Nat.mod_upper_bound N 2).
        lia.
      - apply (evaluated_population_converts _ data _ N); [| done |].
        + rewrite Hl2'. apply final_size_le.
        + intros c Hc. destruct (Hev c (Hsub c Hc)) as (o & Hco & _ & Fo).
          exists o. by rewrite Hhc. }
    intros [] std (Hhd & Hod & Hsd).
    wp_bind. apply wp_print_finished. wp_ret.
    unfold optimized. cbn [heap stat_txt stdout].
    split; [done |]. split; [by rewrite Hhd |].
    split. { rewrite <- Hperm2 in Hnd1. by apply NoDup_app in Hnd1 as [? _]. }
    split; [intros c Hc; by apply Hnew1, Hsub |].
    split.
    { rewrite Hhd, Hhc, Hlb, Hha, length_app, Hlk, Hl, final_size_half, Hbase.
      lia. }
    split.
    { intros c o Hc. rewrite Hhd, Hhc.
      rewrite (Hhb c o); [| rewrite Hha; apply lookup_app_l_Some; auto].
      rewrite bool_decide_eq_false_2; [done |].
      intros Hin%Hnew1. apply lookup_lt_Some in Hc. lia. }
    split.
    { intros _ c Hc. destruct (Hev c (Hsub c Hc)) as (o & Hco & _ & Fo).
      exists o. by rewrite Hhd, Hhc. }
    split.
    { rewrite Hod, Hoc, Hob, Hoa, Ho, seq_S, fmap_app, app_assoc. simpl.
      do 2 f_equal. lia. }
    destruct statistics; [rewrite Hsd, Hsc, Hsb, Hsa, Hs; done | congruence].
  - intros population' st'. by rewrite length_range, Nat2Z.id.
Qed.

Lemma statistics_need (N generations : nat) (statistics : bool) (P : Prop) :
  (statistics = true → 0 < N ∧ (0 < generations → 2 ≤ N) ∧ P) →
  (statistics = true → (if generations is O then 1 else 2) ≤ N ∧ P).
Proof.
  intros H Hs. destruct (H Hs) as (? & ? & ?). split; [| done].
  destruct generations; lia.
Qed.

(** C8: for an even initial size [N], [optimize] terminates after exactly
    [generations] vary-evaluate-select cycles and returns [N] individuals.
    The cycles show in what the call leaves behind: each variation
    allocates [N] children, so the store grows by the [N] initial
    chromosomes and [N] more for every generation; after a generation every
    returned individual carries its score on the dataset; selection keeps
    [N] pairwise distinct individuals, all created by the call; one line is
    printed per generation, numbered from 1, and with statistics one
    average more than there are generations is written to a file that was
    emptied.  The rows of the dataset must have a closing price.  With
    statistics the initial population must not be empty and the averages
    must be computable: [N] times the number of rows, plus one, stays below
    the integers that overflow a float. *)
Theorem optimize_keeps_even_population_size s (N generations : nat) data
    statistics :
  Nat.Even N →
  has_close data = true →
  (statistics = true →
   0 < N ∧ (Z.of_nat N * Z.of_nat (S (length data)) < FLOAT_OVERFLOW)%Z) →
  ∃ population s',
    optimize (Z.of_nat N) (Z.of_nat generations) data statistics s
      = Ok (population, s') ∧
    length population = N ∧
    NoDup population ∧
    (∀ c, c ∈ population → length (heap s) ≤ c < length (heap s')) ∧
    length (heap s') = length (heap s) + N + generations * N ∧
    (0 < generations →
     ∀ c, c ∈ population →
       ∃ o, heap s' !! c = Some o ∧ fitness o = score (weights o) data) ∧
    stdout s' = stdout s ++ (Z.of_nat <$> seq 1 generations) ∧
    (if statistics then length (stat_txt s') = S generations
     else stat_txt s' = stat_txt s).
Proof.
  intros [m ->] Hclose Hstats'.
  assert (2 * m / 2 = m) as Hhalf
    by (rewrite Nat.mul_comm; by apply Nat.div_mul).
  assert (statistics = true →
          (if generations is O then 1 else 2) ≤ 2 * m ∧
          (Z.of_nat (2 * m) * Z.of_nat (S (length data)) < FLOAT_OVERFLOW)%Z)
    as Hstats.
  { intros Hs. destruct (Hstats' Hs) as [Hpos Hbound]. split; [| done].
    destruct generations; lia. }
  destruct (wp_elim _ _ _
              (wp_optimize s (2 * m) generations data statistics Hclose Hstats))
    as (population & s' & Hrun & Hlen & Hvalid & Hnodup & Hnew & Hheap & _
        & Hev & Hout & Hstat).
  exists population, s'. split; [done |].
  split.
  { rewrite Hlen. destruct generations; [done |]. unfold final_size.
    by rewrite Hhalf. }
  split; [done |].
  split.
  { intros c Hc. split; [by apply Hnew |].
    destruct (proj1 (valid_population_spec _ _) Hvalid c Hc) as (o & Ho & _).
    by eapply lookup_lt_Some. }
  split; [by rewrite Hheap, Hhalf |].
  done.
Qed.

(** X9: from any initial size [N], [optimize] returns [N] individuals when
    no generation is run and [2 * (N / 2)] individuals otherwise: an odd
    population loses its unpaired individual in the first generation and
    keeps the size [N - 1] from then on.  It prints one line per generation
    and, with statistics, writes one number more than there are generations
    into a file it has emptied; with statistics the population must not run
    empty, so [N >= 1], and [N >= 2] when a generation is run, and its
    averages must be computable: [N] times the number of rows, plus one,
    stays below the integers that overflow a float. *)
Theorem optimize_population_size s (N generations : nat) data statistics :
  has_close data = true →
  (statistics = true →
   0 < N ∧ (0 < generations → 2 ≤ N) ∧
   (Z.of_nat N * Z.of_nat (S (length data)) < FLOAT_OVERFLOW)%Z) →
  ∃ population s',
    optimize (Z.of_nat N) (Z.of_nat generations) data statistics s
      = Ok (population, s') ∧
    length population = final_size N generations ∧
    (0 < generations → Nat.Odd N → length population = N - 1) ∧
    (Nat.Even N → length population = N) ∧
    stdout s' = stdout s ++ (Z.of_nat <$> seq 1 generations) ∧
    (if statistics then length (stat_txt s') = S generations
     else stat_txt s' = stat_txt s).
Proof.
  intros Hclose Hstats'. pose proof (statistics_need _ _ _ _ Hstats') as Hstats.
  destruct (wp_elim _ _ _ (wp_optimize s N generations data statistics Hclose Hstats))
    as (population & s' & Hrun & Hlen & _ & _ & _ & _ & _ & _ & Hout & Hstat).
  exists population, s'. split; [done |]. split; [done |].
  split; [| split; [| done]].
  - intros Hg [m ->]. rewrite Hlen. destruct generations; [lia |].
    unfold final_size. replace (2 * m + 1) with (1 + m * 2) by lia.
    rewrite Nat.div_add by done. simpl. lia.
  - intros [m ->]. rewrite Hlen. destruct generations; [done |].
    unfold final_size. rewrite (Nat.mul_comm 2 m), Nat.div_mul by done. lia.
Qed.

(** X10: the individuals [optimize] returns are pairwise distinct
    chromosomes with 7 genes, all created by the call; no chromosome that
    existed before is modified.  When at least one generation was run, each
    returned individual carries as fitness its score on the dataset.  With
    statistics the averages must be computable, as for the size of the
    result. *)
Theorem optimize_returns_distinct_evaluated_individuals s (N generations : nat)
    data statistics :
  has_close data = true →
  (statistics = true →
   0 < N ∧ (0 < generations → 2 ≤ N) ∧
   (Z.of_nat N * Z.of_nat (S (length data)) < FLOAT_OVERFLOW)%Z) →
  ∃ population s',
    optimize (Z.of_nat N) (Z.of_nat generations) data statistics s
      = Ok (population, s') ∧
    NoDup population ∧
    valid_population (heap s') population = true ∧
    (∀ c, c ∈ population → heap s !! c = None) ∧
    (∀ (c : loc) o, heap s !! c = Some o → heap s' !! c = Some o) ∧
    (0 < generations →
     ∀ c, c ∈ population →
       ∃ o, heap s' !! c = Some o ∧ fitness o = score (weights o) data).
Proof.
  intros Hclose Hstats'. pose proof (statistics_need _ _ _ _ Hstats') as Hstats.
  destruct (wp_elim _ _ _ (wp_optimize s N generations data statistics Hclose Hstats))
    as (population & s' & Hrun & _ & Hvalid & Hnodup & Hnew & _ & Hold & Hev & _).
  exists population, s'. do 3 (split; [done |]).
  split; [intros c Hc; by apply lookup_ge_None_2, Hnew |].
  split; [done |]. exact Hev.
Qed.

Lemma range_pos (n : Z) : (0 < n)%Z → range n = 0 :: seq 1 (Z.to_nat n - 1).
Proof.
  intros Hn. unfold range. destruct (Z.to_nat n) as [|m] eqn:Hm; [lia |].
  simpl. by rewrite Nat.sub_0_r.
Qed.

Lemma record_stats_empty s : record_stats true [] s = Raise ZeroDivisionError.
Proof. done. Qed.

(** X11: with statistics, [optimize] raises [ZeroDivisionError] as soon as
    it has to average an empty population: at once when the initial size is
    0 or less, and at the end of the first generation when the initial size
    is 1, since selection keeps [1 / 2 = 0] individuals. *)
Theorem optimize_statistics_of_empty_population_raise s
    (initial_population iterations : Z) data :
  has_close data = true →
  (initial_population ≤ 0)%Z ∨
  (initial_population = 1%Z ∧ (0 < iterations)%Z) →
  optimize initial_population iterations data true s = Raise ZeroDivisionError.
Proof.
  intros Hclose Hsize. unfold optimize.
  apply (raise_bind _ _ _ (λ _ st, heap st = heap s)); [done |].
  intros [] s0 Hs0.
  eapply raise_bind; [apply wp_create_population_exact |].
  intros population st (-> & kids & Hheap & Hlen & Hkids & _).
  destruct Hsize as [Hsize | [-> Hiter]].
  { replace (Z.to_nat initial_population) with 0 by lia.
    by apply bind_raise. }
  change (Z.to_nat 1) with 1 in *.
  assert (valid_population (heap st) (seq (length (heap s0)) 1) = true) as Hvalid.
  { rewrite Hheap. apply valid_population_seq; [done | lia]. }
  eapply raise_bind.
  { apply wp_record_stats; [done |]. intros _.
    by rewrite Hheap, total_fitness_unevaluated. }
  intros [] st1 (Hheap1 & _). rewrite (range_pos iterations Hiter).
  cbn [for_in]. apply bind_raise.
  eapply raise_bind.
  { apply wp_add_children_valid. by rewrite Hheap1. }
  intros pop1 sta (Hl1 & Hv1 & _).
  eapply raise_bind.
  { apply wp_evaluate_population_exact; [by apply valid_population_live | done]. }
  intros [] stb (_ & _ & _ & Hlb & _).
  eapply raise_bind.
  { apply wp_select_fittest. apply valid_population_live in Hv1.
    rewrite live_population_spec in Hv1 |- *. intros c Hc.
    apply lookup_lt_is_Some. rewrite Hlb. by apply lookup_lt_is_Some, Hv1. }
  intros [pop2 rest] stc (_ & Hl2 & _).
  rewrite Hl1 in Hl2. cbn in Hl2. destruct pop2; [| done].
  apply bind_raise, record_stats_empty.
Qed.

(** ** The best individual, again *)

Lemma sort_desc_of_sorted l :
  StronglySorted (λ a b : Z * loc, (b.1 ≤ a.1)%Z) l → sort_desc l = l.
Proof.
  induction 1 as [|a l Hl IH Ha]; [done |].
  cbn [sort_desc foldr]. fold (sort_desc l). rewrite IH.
  destruct l as [|y l]; [done |]. cbn [insert_desc].
  apply Forall_cons in Ha as [Hy _]. by rewrite (proj2 (Z.leb_le _ _) Hy).
Qed.

Lemma decorate_sorted h population :
  decorate h (sort_desc (decorate h population)).*2
  = sort_desc (decorate h population).
Proof.
  assert (Forall (λ x : Z * loc, x.1 = fitness_of h x.2)
            (sort_desc (decorate h population))) as Hkeys.
  { rewrite sort_desc_perm. unfold decorate. apply Forall_fmap.
    by apply Forall_true. }
  induction Hkeys as [|[f c] l Hx Hl IH]; [done |].
  cbn [fmap list_fmap decorate] in *. fold (decorate h l.*2). f_equal; [| done].
  simpl in Hx. by rewrite Hx.
Qed.

(** X12: [get_optimal] leaves the list sorted, and sorted is how a second
    call finds it: called again on the same list it returns the same
    individual and does not reorder anything. *)
Theorem get_optimal_twice s population :
  live_population (heap s) population = true →
  population ≠ [] →
  ∃ best sorted,
    get_optimal population s = Ok ((best, sorted), s) ∧
    get_optimal sorted s = Ok ((best, sorted), s).
Proof.
  intros Hlive Hne.
  destruct (wp_elim _ _ _ (wp_get_optimal s population Hlive Hne))
    as ([best sorted] & st & Hrun & -> & -> & Hmax).
  set (keyed := sort_desc (decorate (heap s) population)) in *.
  assert (keyed.*2 ≡ₚ population) as Hperm.
  { unfold keyed. rewrite sort_desc_perm. unfold decorate.
    rewrite <- list_fmap_compose. by rewrite list_fmap_id. }
  assert (live_population (heap s) keyed.*2 = true) as Hlive2.
  { rewrite live_population_spec in Hlive |- *. intros c Hc. apply Hlive.
    by rewrite <- Hperm. }
  assert (keyed.*2 ≠ []) as Hne2.
  { intros Hnil. rewrite Hnil in Hperm. by apply Permutation_nil_l in Hperm. }
  destruct (wp_elim _ _ _ (wp_get_optimal s keyed.*2 Hlive2 Hne2))
    as ([best2 sorted2] & st2 & Hrun2 & -> & -> & Hmax2).
  exists best, keyed.*2. split; [done |]. rewrite Hrun2.
  unfold keyed in Hmax2 |- *. rewrite decorate_sorted in Hmax2 |- *.
  rewrite sort_desc_of_sorted in * by apply sort_desc_sorted.
  rewrite <- head_sort_desc in Hmax, Hmax2.
  rewrite sort_desc_of_sorted in Hmax2 by apply sort_desc_sorted.
  rewrite Hmax in Hmax2. by injection Hmax2 as _ ->.
Qed.

(** X13: [get_optimal] accepts what [optimize] returns, as the main program
    chains them: from at least 2 initial individuals and after at least one
    generation, it returns a member of the final population whose fitness is
    its score on the dataset, and no member of the final population has a
    greater score.  With statistics the averages must be computable, as for
    the size of the result. *)
Theorem get_optimal_of_optimize s (N generations : nat) data statistics :
  has_close data = true →
  2 ≤ N →
  0 < generations →
  (statistics = true → (Z.of_nat N * Z.of_nat (S (length data)) < FLOAT_OVERFLOW)%Z) →
  ∃ population s' best sorted o,
    optimize (Z.of_nat N) (Z.of_nat generations) data statistics s
      = Ok (population, s') ∧
    get_optimal population s' = Ok ((best, sorted), s') ∧
    best ∈ population ∧
    heap s' !! best = Some o ∧
    fitness o = score (weights o) data ∧
    ∀ c, c ∈ population →
      ∃ o', heap s' !! c = Some o' ∧
            (score (weights o') data ≤ score (weights o) data)%Z.
Proof.
  intros Hclose HN Hg Hbound.
  assert (statistics = true →
          (if generations is O then 1 else 2) ≤ N ∧
          (Z.of_nat N * Z.of_nat (S (length data)) < FLOAT_OVERFLOW)%Z) as Hstats
    by (intros Hs; split; [destruct generations; lia | by apply Hbound]).
  destruct (wp_elim _ _ _ (wp_optimize s N generations data statistics Hclose Hstats))
    as (population & s' & Hrun & Hlen & Hvalid & _ & _ & _ & _ & Hev & _).
  specialize (Hev Hg).
  assert (population ≠ []) as Hne.
  { intros ->. destruct generations; [lia |]. unfold final_size in Hlen.
    simpl length in Hlen.
    pose proof (Nat.div_mod_eq N 2). pose proof (Nat.mod_upper_bound N 2). lia. }
  pose proof (valid_population_live _ _ Hvalid) as Hlive.
  destruct (wp_elim _ _ _ (wp_get_optimal s' population Hlive Hne))
    as ([best sorted] & st & Hopt & -> & -> & Hmax).
  destruct (first_max_spec _ _ Hmax) as (i & Hi & Hall & _).
  unfold decorate in Hi. rewrite list_lookup_fmap in Hi.
  destruct (population !! i) as [c|] eqn:Hpi; [| done].
  injection Hi as _ <-.
  assert (c ∈ population) as Hbest by by eapply list_elem_of_lookup_2.
  destruct (Hev c Hbest) as (o & Ho & Fo).
  exists population, s', c, (sort_desc (decorate (heap s') population)).*2, o.
  do 5 (split; [done |]).
  intros c' Hc'. destruct (Hev c' Hc') as (o' & Ho' & Fo'). exists o'.
  split; [done |].
  specialize (Hall (fitness_of (heap s') c', c')). cbn [fst] in Hall.
  unfold fitness_of in Hall. rewrite Ho, Ho' in Hall. rewrite <- Fo, <- Fo'.
  apply Hall. unfold decorate. apply list_elem_of_fmap. exists c'.
  unfold fitness_of. by rewrite Ho'.
Qed.

(** ** The children of a crossover *)

(** X14: the children [crossover] returns are new chromosomes with 7 genes
    and fitness 0: the loop assigns genes by index and never sets a fitness.
    The call writes no output and consumes the random source as the draws of
    its 7 genes prescribe. *)
Theorem crossover_children_are_unevaluated s c1 c2 o1 o2 :
  heap s !! c1 = Some o1 →
  heap s !! c2 = Some o2 →
  length (weights o1) = GENES →
  length (weights o2) = GENES →
  ∃ childA childB oA oB s',
    crossover c1 c2 s = Ok ([childA; childB], s') ∧
    heap s' !! childA = Some oA ∧ heap s' !! childB = Some oB ∧
    length (weights oA) = GENES ∧ length (weights oB) = GENES ∧
    fitness oA = 0%Z ∧ fitness oB = 0%Z ∧
    gen s' = gene_rng (gen s) GENES ∧
    stat_txt s' = stat_txt s ∧ stdout s' = stdout s.
Proof.
  intros H1 H2 L1 L2.
  destruct (crossover_run s c1 c2 o1 o2 H1 H2 L1 L2)
    as (st & Hrun & oA & oB & -> & FA & FB & LA & LB & _).
  exists (length (heap s)), (S (length (heap s))), oA, oB. eexists.
  split; [exact Hrun |]. cbn [heap gen stat_txt stdout].
  split; [apply lookup_tail2_fst |]. split; [apply lookup_tail2_snd |]. done.
Qed.

End Verification.

(** * The program on concrete inputs *)

#[local] Existing Instance TapeRandom.
#[local] Existing Instance StepMath.

(** The fitness theorem on the four-day dataset: three rows are compared. *)
Lemma evaluate_fitness_example :
  heap example_state !! 0 = Some parent0 ∧
  well_formed_data example_data = true ∧
  ∃ success fail s',
    count_predictions (weights parent0) example_data example_state
      = Ok ((success, fail), example_state) ∧
    evaluate_fitness 0 example_data example_state = Ok (tt, s') ∧
    (0 ≤ success ≤ 3)%Z ∧ (success + fail = 3)%Z.
Proof.
  split; [reflexivity |]. split; [reflexivity |].
  destruct (evaluate_fitness_counts_right_predictions
              example_state 0 parent0 example_data eq_refl eq_refl)
    as (success & fail & s' & Hcount & Hrun & _ & _ & _ & Hb & Hsum & _).
  exists success, fail, s'. auto.
Defined.

(** On an empty dataset no row is compared: both counters stay at 0, which
    is neither in [0, L - 1] nor a pair that adds up to [L - 1] for [L = 0]. *)
Lemma evaluate_fitness_empty_dataset :
  well_formed_data [] = true ∧
  count_predictions (weights parent0) [] example_state
    = Ok ((0, 0)%Z, example_state) ∧
  (∃ s', evaluate_fitness 0 [] example_state = Ok (tt, s') ∧
         fitness_of (heap s') 0 = 0%Z) ∧
  ¬ (0 ≤ 0 ≤ Z.of_nat (length (@nil (list float))) - 1)%Z ∧
  ¬ (0 + 0 = Z.of_nat (length (@nil (list float))) - 1)%Z.
Proof.
  split; [reflexivity |]. split; [reflexivity |]. split.
  { exists (mkState
              (<[0 := {| weights := weights parent0; fitness := 0 |}]> example_heap)
              (gen example_state) [] []).
    split; reflexivity. }
  split; simpl; lia.
Qed.

Lemma crossover_segments_example :
  heap example_state !! 0 = Some parent0 ∧
  heap example_state !! 1 = Some parent1 ∧
  length (weights parent0) = GENES ∧ length (weights parent1) = GENES ∧
  (0 ≤ drawn_cut1 (gen example_state) ≤ 3)%Z ∧
  (4 ≤ drawn_cut2 (gen example_state) ≤ 6)%Z ∧
  ∃ childA childB s',
    crossover 0 1 example_state = Ok ([childA; childB], s').
Proof.
  do 4 (split; [reflexivity |]).
  destruct (crossover_two_point_segments
              example_state 0 1 parent0 parent1 eq_refl eq_refl eq_refl eq_refl)
    as (Hcut1 & Hcut2 & childA & childB & oA & oB & s' & Hrun & _).
  split; [exact Hcut1 |]. split; [exact Hcut2 |]. eauto.
Defined.

Lemma crossover_mutation_example :
  heap example_state !! 0 = Some parent0 ∧
  heap example_state !! 1 = Some parent1 ∧
  length (weights parent0) = GENES ∧ length (weights parent1) = GENES ∧
  ∃ childA childB oA oB s',
    crossover 0 1 example_state = Ok ([childA; childB], s') ∧
    heap s' !! childA = Some oA ∧ heap s' !! childB = Some oB.
Proof.
  do 4 (split; [reflexivity |]).
  destruct (crossover_mutation_excludes_copy
              example_state 0 1 parent0 parent1 eq_refl eq_refl eq_refl eq_refl)
    as (childA & childB & oA & oB & s' & Hrun & HA & HB & _).
  exists childA, childB, oA, oB, s'. auto.
Defined.

Lemma crossover_frame_example :
  heap example_state !! 0 = Some parent0 ∧
  heap example_state !! 1 = Some parent1 ∧
  length (weights parent0) = GENES ∧ length (weights parent1) = GENES ∧
  ∃ childA childB s',
    crossover 0 1 example_state = Ok ([childA; childB], s') ∧
    heap s' !! 0 = Some parent0 ∧ heap s' !! 1 = Some parent1.
Proof.
  do 4 (split; [reflexivity |]).
  destruct (crossover_leaves_parents_unchanged
              example_state 0 1 parent0 parent1 eq_refl eq_refl eq_refl eq_refl)
    as (childA & childB & s' & Hrun & _ & _ & _ & _ & _ & _ & H0 & H1 & _).
  exists childA, childB, s'. auto.
Defined.

(** A population of three: one pair, two children, one member left out. *)
Lemma add_children_example :
  valid_population (heap example_state) [0; 1; 2] = true ∧
  ∃ population' s',
    add_children [0; 1; 2] example_state = Ok (population', s') ∧
    length population' = 5.
Proof.
  split; [reflexivity |].
  destruct (add_children_pairs_halves example_state [0; 1; 2] eq_refl)
    as (population' & s1 & s' & _ & _ & Hrun & _ & _ & Hlen & _).
  exists population', s'. auto.
Defined.

Lemma select_fittest_example :
  live_population (heap example_state) [0; 1; 2] = true ∧
  ∃ fittest rest s',
    select_fittest [0; 1; 2] example_state = Ok ((fittest, rest), s') ∧
    length fittest = 1 ∧ fittest ++ rest ≡ₚ [0; 1; 2].
Proof.
  split; [reflexivity |].
  destruct (select_fittest_half_without_replacement
              example_state [0; 1; 2] eq_refl)
    as (fittest & rest & s' & Hrun & Hlen & Hperm & _).
  exists fittest, rest, s'. auto.
Defined.

(** A population that holds the individual of fitness 7 twice: with both
    rolls at 0.3 the two survivors are that individual, selected twice in
    one call. *)
Lemma select_fittest_selects_repeated_individual_twice :
  live_population example_heap [1; 1; 0; 2] = true ∧
  select_fittest [1; 1; 0; 2]
    (mkState (RS := TapeRandom) example_heap [3; 3]%Z [] [])
    = Ok (([1; 1], [0; 2]),
          mkState (RS := TapeRandom) example_heap [] [] []) ∧
  ¬ NoDup [1; 1].
Proof.
  split; [reflexivity |]. split; [reflexivity |].
  intros Hnodup. apply NoDup_cons in Hnodup as [Hnotin _].
  apply Hnotin. by left.
Qed.

Lemma degenerate_population_example :
  length [0] ≤ 1 ∧
  (∃ s', add_children [0] example_state = Ok ([0], s')) ∧
  select_fittest [0] example_state = Ok (([], [0]), example_state).
Proof.
  split; [apply le_n |].
  destruct (degenerate_population_is_not_an_error example_state [0] (le_n 1))
    as [Hadd Hsel].
  split; [eexists; exact Hadd | exact Hsel].
Defined.

(** A population of one: the survivors are not the population, the only
    individual is not selected. *)
Lemma select_fittest_drops_single_individual :
  select_fittest [0] example_state = Ok (([], [0]), example_state) ∧
  @nil loc ≠ [0].
Proof. split; [reflexivity | discriminate]. Qed.

(** The population of fitness 3, 7 and 5: the mean is 15 / 3. *)
Lemma avg_fitness_example :
  live_population (heap example_state) [0; 1; 2] = true ∧
  (Z.of_nat 3 < FLOAT_OVERFLOW)%Z ∧
  (Z.abs 15 < FLOAT_OVERFLOW)%Z ∧
  total_fitness (heap example_state) [0; 1; 2] = 15%Z ∧
  avg_fitness [0; 1; 2] example_state = Ok (5%float, example_state).
Proof.
  do 4 (split; [reflexivity |]).
  destruct (avg_fitness_is_unguarded_mean example_state [0; 1; 2] eq_refl)
    as (_ & _ & Hmean).
  rewrite (Hmean ltac:(discriminate) eq_refl eq_refl). reflexivity.
Defined.

(** A fitness of [10 ^ 400] is beyond the floats: the conversion of the sum
    raises.  So does a sum that reaches the bound from two summands below
    it, while the largest sum below the bound is averaged. *)
Lemma avg_fitness_overflow_example :
  avg_fitness [0]
    (mkState (RS := TapeRandom)
       [ {| weights := replicate GENES 1%float; fitness := 10 ^ 400 |} ]
       [] [] [])
  = Raise OverflowError ∧
  avg_fitness [0; 0]
    (mkState (RS := TapeRandom)
       [ {| weights := replicate GENES 1%float;
            fitness := 2 ^ 1023 - 2 ^ 969 |} ]
       [] [] [])
  = Raise OverflowError ∧
  ∃ a,
    avg_fitness [0]
      (mkState (RS := TapeRandom)
         [ {| weights := replicate GENES 1%float;
              fitness := FLOAT_OVERFLOW - 1 |} ]
         [] [] [])
    = Ok (a, mkState (RS := TapeRandom)
               [ {| weights := replicate GENES 1%float;
                    fitness := FLOAT_OVERFLOW - 1 |} ]
               [] [] []) ∧
    (a <? infinity)%float = true.
Proof.
  split; [vm_compute; reflexivity |]. split; [vm_compute; reflexivity |].
  eexists. split; vm_compute; reflexivity.
Qed.

(** The division by zero of an empty population reaches the caller. *)
Lemma avg_fitness_empty_population_raises :
  avg_fitness [] example_state = Raise ZeroDivisionError.
Proof. reflexivity. Qed.

(** Ten individuals, five generations, with statistics. *)
Lemma optimize_example :
  Nat.Even 10 ∧
  has_close example_data = true ∧
  (true = true →
   0 < 10 ∧
   (Z.of_nat 10 * Z.of_nat (S (length example_data)) < FLOAT_OVERFLOW)%Z) ∧
  ∃ population s',
    optimize 10 5 example_data true example_state = Ok (population, s') ∧
    length population = 10 ∧
    length (heap s') = 63 ∧
    stdout s' = [1; 2; 3; 4; 5]%Z ∧
    length (stat_txt s') = 6.
Proof.
  assert (Nat.Even 10) as Heven by (exists 5; reflexivity).
  assert (true = true →
          0 < 10 ∧
          (Z.of_nat 10 * Z.of_nat (S (length example_data))
           < FLOAT_OVERFLOW)%Z) as Hstats.
  { intros _. split; [repeat constructor | reflexivity]. }
  split; [exact Heven |]. split; [reflexivity |]. split; [exact Hstats |].
  destruct (optimize_keeps_even_population_size
              example_state 10 5 example_data true Heven eq_refl Hstats)
    as (population & s' & Hrun & Hlen & _ & _ & Hheap & _ & Hout & Hstat).
  exists population, s'. auto.
Defined.

(** An empty initial population with statistics: the first average fails. *)
Lemma optimize_empty_population_with_statistics :
  Nat.Even 0 ∧
  well_formed_data example_data = true ∧
  optimize 0 5 example_data true example_state = Raise ZeroDivisionError.
Proof.
  split; [exists 0; reflexivity |]. split; reflexivity.
Qed.

(** The population of fitness 3, 7 and 5: the individual of fitness 7. *)
Lemma get_optimal_example :
  live_population (heap example_state) [0; 1; 2] = true ∧
  [0; 1; 2] ≠ @nil loc ∧
  get_optimal [0; 1; 2] example_state = Ok ((1, [1; 2; 0]), example_state) ∧
  fitness_of (heap example_state) 1 = 7%Z ∧
  ∀ c, c ∈ [0; 1; 2] →
       (fitness_of (heap example_state) c
        ≤ fitness_of (heap example_state) 1%nat)%Z.
Proof.
  assert ([0; 1; 2] ≠ @nil loc) as Hne by discriminate.
  split; [reflexivity |]. split; [exact Hne |].
  destruct (get_optimal_returns_first_fittest example_state [0; 1; 2] eq_refl Hne)
    as (best & sorted & Hrun & _ & _ & _ & i & _ & Hall & _).
  assert (get_optimal [0; 1; 2] example_state
          = Ok ((1, [1; 2; 0]), example_state)) as Hcomputed by reflexivity.
  rewrite Hcomputed in Hrun. injection Hrun as <- <-.
  split; [exact Hcomputed |]. split; [reflexivity | exact Hall].
Defined.

(** ** Further properties on concrete inputs *)

(** A dataset whose second row stops before the closing price. *)
Definition short_data : list (list float) :=
  [ [1; 1; 1; 10; 1; 1; 1]; [2; 1; 1] ]%float.

Lemma evaluate_fitness_short_row_example :
  heap example_state !! 0 = Some parent0 ∧
  has_close short_data = false ∧ 2 ≤ length short_data ∧
  evaluate_fitness 0 short_data example_state = Raise IndexError ∧
  ∃ s', evaluate_fitness 0 example_data example_state = Ok (tt, s').
Proof.
  split; [reflexivity |]. split; [reflexivity |]. split; [apply le_n |].
  destruct (evaluate_fitness_needs_closing_prices
              example_state 0 parent0 short_data eq_refl) as [_ Hraise].
  destruct (evaluate_fitness_needs_closing_prices
              example_state 0 parent0 example_data eq_refl) as [Hok _].
  split; [exact (Hraise eq_refl (le_n 2)) | exact (Hok (or_introl eq_refl))].
Defined.

Lemma evaluate_fitness_twice_example :
  heap example_state !! 0 = Some parent0 ∧
  has_close example_data = true ∧
  ∃ s', evaluate_fitness 0 example_data example_state = Ok (tt, s') ∧
        evaluate_fitness 0 example_data s' = Ok (tt, s').
Proof.
  split; [reflexivity |]. split; [reflexivity |].
  destruct (evaluate_fitness_only_sets_fitness
              example_state 0 parent0 example_data eq_refl eq_refl)
    as (s' & Hrun & _ & _ & _ & _ & _ & _ & Hagain).
  exists s'. auto.
Defined.

Lemma evaluate_population_example :
  live_population (heap example_state) [0; 2] = true ∧
  has_close example_data = true ∧
  ∃ s', evaluate_population [0; 2] example_data example_state = Ok (tt, s') ∧
        heap s' !! 1 = Some parent1.
Proof.
  split; [reflexivity |]. split; [reflexivity |].
  destruct (evaluate_population_scores_every_member
              example_state [0; 2] example_data eq_refl eq_refl)
    as (s' & Hrun & _ & Hheap & _).
  exists s'. split; [exact Hrun |]. exact (Hheap 1 parent1 eq_refl).
Defined.

Lemma add_children_keeps_example :
  valid_population (heap example_state) [0; 1; 2] = true ∧
  ∃ population' s',
    add_children [0; 1; 2] example_state = Ok (population', s') ∧
    heap s' !! 1 = Some parent1.
Proof.
  split; [reflexivity |].
  destruct (add_children_keeps_the_individuals example_state [0; 1; 2] eq_refl)
    as (shuffled & children & kids & s' & Hrun & _ & _ & Hold & _).
  exists (shuffled ++ children), s'. split; [exact Hrun |].
  exact (Hold 1 parent1 eq_refl).
Defined.

Lemma avg_fitness_order_example :
  live_population (heap example_state) [0; 1; 2] = true ∧
  [0; 1; 2] ≡ₚ [2; 0; 1] ∧
  avg_fitness [0; 1; 2] example_state = avg_fitness [2; 0; 1] example_state.
Proof.
  assert ([0; 1; 2] ≡ₚ [2; 0; 1]) as Hperm
    by exact (Permutation_sym (Permutation_cons_append [0; 1] 2)).
  split; [reflexivity |]. split; [exact Hperm |].
  exact (avg_fitness_ignores_order example_state [0; 1; 2] [2; 0; 1] eq_refl Hperm).
Defined.

(** The first roll of the example tape is 0.3, above 0.1: the survivor of
    the population of fitness 3, 7 and 5 is the individual of fitness 7. *)
Lemma select_fittest_top_half_example :
  live_population (heap example_state) [0; 1; 2] = true ∧
  no_random_pick (gen example_state) (length [0; 1; 2] / 2) ∧
  ∃ rest s', select_fittest [0; 1; 2] example_state = Ok (([1], rest), s').
Proof.
  assert (no_random_pick (gen example_state) (length [0; 1; 2] / 2)) as Hrolls.
  { intros k Hk. destruct k as [|k]; [reflexivity |].
    simpl in Hk. lia. }
  split; [reflexivity |]. split; [exact Hrolls |].
  destruct (select_fittest_without_random_pick_is_top_half
              example_state [0; 1; 2] eq_refl Hrolls)
    as (rest & s' & Hrun & _).
  exists rest, s'. exact Hrun.
Defined.

(** Three individuals, two generations: two individuals are left. *)
Lemma optimize_odd_size_example :
  has_close example_data = true ∧
  (true = true →
   0 < 3 ∧ (0 < 2 → 2 ≤ 3) ∧
   (Z.of_nat 3 * Z.of_nat (S (length example_data)) < FLOAT_OVERFLOW)%Z) ∧
  ∃ population s',
    optimize 3 2 example_data true example_state = Ok (population, s') ∧
    length population = 2.
Proof.
  assert (true = true →
          0 < 3 ∧ (0 < 2 → 2 ≤ 3) ∧
          (Z.of_nat 3 * Z.of_nat (S (length example_data))
           < FLOAT_OVERFLOW)%Z) as Hstats.
  { intros _. split; [repeat constructor |].
    split; [intros _; repeat constructor | reflexivity]. }
  split; [reflexivity |]. split; [exact Hstats |].
  destruct (optimize_population_size example_state 3 2 example_data true
              eq_refl Hstats)
    as (population & s' & Hrun & Hlen & _).
  exists population, s'. split; [exact Hrun | exact Hlen].
Defined.

Lemma optimize_distinct_example :
  has_close example_data = true ∧
  (false = true →
   0 < 4 ∧ (0 < 2 → 2 ≤ 4) ∧
   (Z.of_nat 4 * Z.of_nat (S (length example_data)) < FLOAT_OVERFLOW)%Z) ∧
  ∃ population s',
    optimize 4 2 example_data false example_state = Ok (population, s') ∧
    NoDup population ∧ heap s' !! 1 = Some parent1.
Proof.
  assert (false = true →
          0 < 4 ∧ (0 < 2 → 2 ≤ 4) ∧
          (Z.of_nat 4 * Z.of_nat (S (length example_data))
           < FLOAT_OVERFLOW)%Z) as Hstats by discriminate.
  split; [reflexivity |]. split; [exact Hstats |].
  destruct (optimize_returns_distinct_evaluated_individuals
              example_state 4 2 example_data false eq_refl Hstats)
    as (population & s' & Hrun & Hnodup & _ & _ & Hold & _).
  exists population, s'. split; [exact Hrun |]. split; [exact Hnodup |].
  exact (Hold 1 parent1 eq_refl).
Defined.

Lemma optimize_single_individual_example :
  has_close example_data = true ∧
  ((1 ≤ 0)%Z ∨ (1 = 1 ∧ 0 < 3)%Z) ∧
  optimize 1 3 example_data true example_state = Raise ZeroDivisionError.
Proof.
  assert ((1 ≤ 0)%Z ∨ (1 = 1 ∧ 0 < 3)%Z) as Hsize
    by (right; split; reflexivity).
  split; [reflexivity |]. split; [exact Hsize |].
  exact (optimize_statistics_of_empty_population_raise
           example_state 1 3 example_data eq_refl Hsize).
Defined.

Lemma get_optimal_twice_example :
  live_population (heap example_state) [0; 1; 2] = true ∧
  (∃ best sorted,
     get_optimal [0; 1; 2] example_state = Ok ((best, sorted), example_state) ∧
     get_optimal sorted example_state = Ok ((best, sorted), example_state)).
Proof.
  split; [reflexivity |].
  exact (get_optimal_twice example_state [0; 1; 2] eq_refl
           ltac:(discriminate)).
Defined.

Lemma get_optimal_of_optimize_example :
  has_close example_data = true ∧ 2 ≤ 4 ∧ 0 < 2 ∧
  (true = true →
   (Z.of_nat 4 * Z.of_nat (S (length example_data)) < FLOAT_OVERFLOW)%Z) ∧
  ∃ population s' best sorted,
    optimize 4 2 example_data true example_state = Ok (population, s') ∧
    get_optimal population s' = Ok ((best, sorted), s') ∧
    best ∈ population.
Proof.
  assert (2 ≤ 4) as HN by (repeat constructor).
  assert (0 < 2) as Hg by (repeat constructor).
  assert (true = true →
          (Z.of_nat 4 * Z.of_nat (S (length example_data))
           < FLOAT_OVERFLOW)%Z) as Hbound by (intros _; reflexivity).
  split; [reflexivity |]. split; [exact HN |]. split; [exact Hg |].
  split; [exact Hbound |].
  destruct (get_optimal_of_optimize example_state 4 2 example_data true
              eq_refl HN Hg Hbound)
    as (population & s' & best & sorted & o & Hrun & Hopt & Hin & _).
  exists population, s', best, sorted. auto.
Defined.

Lemma crossover_children_example :
  heap example_state !! 0 = Some parent0 ∧
  heap example_state !! 1 = Some parent1 ∧
  length (weights parent0) = GENES ∧ length (weights parent1) = GENES ∧
  ∃ childA childB oA oB s',
    crossover 0 1 example_state = Ok ([childA; childB], s') ∧
    heap s' !! childA = Some oA ∧ heap s' !! childB = Some oB ∧
    fitness oA = 0%Z ∧ fitness oB = 0%Z.
Proof.
  do 4 (split; [reflexivity |]).
  destruct (crossover_children_are_unevaluated
              example_state 0 1 parent0 parent1 eq_refl eq_refl eq_refl eq_refl)
    as (childA & childB & oA & oB & s' & Hrun & HA & HB & _ & _ & FA & FB & _).
  exists childA, childB, oA, oB, s'. auto.
Defined.
